(** * The ORK object display of object_recognition_ros (rviz plugin)

    A shallow embedding of the class [OrkObjectDisplay], from the
    implementation file of src/rviz_plugin/ork_display.h: the message
    callback [processMessage], [reset] and the destructor.  Line numbers
    are those of that implementation file.

    The two [std::map<std::string, std::string>] members are finite maps,
    the visuals are heap objects that [visuals_] refers to, and every call
    to an outside collaborator (database backend, temporary files, mesh
    loader, frame manager) is recorded in a trace.  The collaborators are
    taken to return normally, except for the exceptions the code catches;
    the file system changes by the hand of the display only, and opening
    a temporary file succeeds. *)

From stdpp Require Import gmap strings list fin_maps sorting pretty.

(** ** Messages (object_recognition_msgs) *)

(** [ros::Time]: two unsigned 32-bit fields. *)
Record Time := { sec : N; nsec : N }.

(** [std_msgs/Header], the fields the display reads. *)
Record Header := { frame_id : string; stamp : Time }.

(** [object_recognition_msgs/ObjectType]: the database and the key of the
    object inside it, both strings. *)
Record ObjectType := { db : string; key : string }.

(** [object_recognition_msgs/RecognizedObject], the fields the display reads. *)
Record RecognizedObject := { header : Header; type : ObjectType }.

(** [object_recognition_msgs/RecognizedObjectArray]. *)
Record RecognizedObjectArray := { objects : list RecognizedObject }.

#[global] Instance Time_eq_dec : EqDecision Time.
Proof. solve_decision. Defined.
#[global] Instance Header_eq_dec : EqDecision Header.
Proof. solve_decision. Defined.
#[global] Instance ObjectType_eq_dec : EqDecision ObjectType.
Proof. solve_decision. Defined.
#[global] Instance RecognizedObject_eq_dec : EqDecision RecognizedObject.
Proof. solve_decision. Defined.

(** ** Collaborators *)

(** [ObjectDbParameters::type()].  The display only distinguishes [NONCORE]
    (a backend loaded as a plugin) from every built-in backend type. *)
Inductive ObjectDbType := NONCORE | CORE.

(** [prototypes::ObjectInfo] after [load_fields_and_attachments()]: the
    field and the attachment the display asks for.  [mesh_uri = Some u]
    stands for [has_field("mesh_uri")] with [get_field] returning [u];
    [mesh = Some blob] for [has_attachment("mesh")] whose stream is [blob]. *)
Record ObjectInfo := { mesh_uri : option string; mesh : option string }.

(** A default-constructed [ObjectInfo]: no field, no attachment. *)
Definition ObjectInfo_default : ObjectInfo :=
  {| mesh_uri := None; mesh := None |}.

(** Every call that leaves the display, in the order it is made. *)
Inductive Event :=
  | EvNewVisual (id : nat)                      (* new OrkObjectVisual(...) *)
  | EvCreateInstance (type_name : string)       (* db_class_loader_->createInstance *)
  | EvGenerateDb (db_name : string)             (* db_params.generateDb() *)
  | EvObjectInfo (object_key : string)          (* ObjectInfo(key, db) and its load *)
  | EvTmpnam                                    (* std::tmpnam(0) *)
  | EvWriteFile (path : string)                 (* ofstream open, write, close *)
  | EvLoadMesh (uri : string)                   (* rviz::loadMeshFromResource *)
  | EvGetTransform (frame : string) (t : Time)  (* FrameManager::getTransform *)
  | EvRemove (path : string).                   (* std::remove *)

#[global] Instance Event_eq_dec : EqDecision Event.
Proof. solve_decision. Defined.

(** A backend call: plugin instantiation, backend generation, or a
    metadata query. *)
Definition is_backend_call (e : Event) : bool :=
  match e with
  | EvCreateInstance _ | EvGenerateDb _ | EvObjectInfo _ => true
  | _ => false
  end.

(** Disk I/O done by the display itself. *)
Definition is_disk_io (e : Event) : bool :=
  match e with
  | EvTmpnam | EvWriteFile _ | EvRemove _ => true
  | _ => false
  end.

(** Control flow of the body of the [for] loop of [processMessage]: fall
    through to the next iteration, or [return] from the function. *)
Inductive Flow := Continue | Return.

Section Display.

(** [Ogre::Vector3], [Ogre::Quaternion] and the backend behind an
    [ObjectDbPtr] are opaque to the display. *)
Context {Vector3 Quaternion ObjectDb : Type}.

(** [std::tmpnam(0)]: the name returned by the n-th call of the process. *)
Variable tmpnam : nat -> string.

(** What the collaborators answer while one message is processed.  A
    [None] of [createInstance] is a [pluginlib::PluginlibException], a
    [None] of [generateDb] a null [ObjectDbPtr], a [None] of
    [ObjectInfo_new] an exception of the constructor
    [ObjectInfo(key, db)], a [false] of [loadMeshFromResource] a null
    mesh, a [None] of [getTransform] its [false]. *)
Record Collaborators := {
  db_params_type : string -> ObjectDbType;
  db_params_raw_type : string -> string;
  createInstance : string -> option ObjectDb;
  generateDb : string -> option ObjectDb;
  ObjectInfo_new : string -> option ObjectDb -> option ObjectInfo;
  loadMeshFromResource : string -> bool;
  getTransform : string -> Time -> option (Vector3 * Quaternion)
}.

(** Modelled from the spec: the class [OrkObjectVisual] (ork_visual.h is
    not among the sources).  An instance holds a mesh assignment, a
    position and an orientation; the record keeps what [setMessage],
    [setFramePosition] and [setFrameOrientation] last gave it, and a new
    instance has none of them. *)
Record OrkObjectVisual := {
  vis_message : option (RecognizedObject * string);
  vis_position : option Vector3;
  vis_orientation : option Quaternion
}.

(** Modelled from the spec: the constructor of [OrkObjectVisual]. *)
Definition OrkObjectVisual_new : OrkObjectVisual :=
  {| vis_message := None; vis_position := None; vis_orientation := None |}.

(** Modelled from the spec: [OrkObjectVisual::setMessage]. *)
Definition setMessage (object : RecognizedObject) (mesh_resource : string)
    (v : OrkObjectVisual) : OrkObjectVisual :=
  {| vis_message := Some (object, mesh_resource);
     vis_position := vis_position v;
     vis_orientation := vis_orientation v |}.

(** Modelled from the spec: [OrkObjectVisual::setFramePosition]. *)
Definition setFramePosition (position : Vector3) (v : OrkObjectVisual)
    : OrkObjectVisual :=
  {| vis_message := vis_message v;
     vis_position := Some position;
     vis_orientation := vis_orientation v |}.

(** Modelled from the spec: [OrkObjectVisual::setFrameOrientation]. *)
Definition setFrameOrientation (orientation : Quaternion)
    (v : OrkObjectVisual) : OrkObjectVisual :=
  {| vis_message := vis_message v;
     vis_position := vis_position v;
     vis_orientation := Some orientation |}.

(** The members of [OrkObjectDisplay] that [processMessage] uses
    ([visuals_] holds the [shared_ptr]s as the identities of the objects
    they point to; the two maps have the type of the iterator of line 76),
    the heap of visuals with the identity of the next object allocated,
    and the part of the outside world the display acts on: the files, the
    number of names [tmpnam] has given, the calls made so far. *)
Record State := {
  visuals_ : list nat;
  mesh_resources_ : gmap string string;
  mesh_files_ : gmap string string;
  visual_heap : gmap nat OrkObjectVisual;
  next_visual : nat;
  fs : gmap string string;
  tmpnam_calls : nat;
  trace : list Event
}.

(** The display right after its constructor, in a given file system. *)
Definition OrkObjectDisplay_new (files : gmap string string) : State :=
  {| visuals_ := []; mesh_resources_ := ∅; mesh_files_ := ∅;
     visual_heap := ∅; next_visual := 0; fs := files;
     tmpnam_calls := 0; trace := [] |}.

(** A call to a collaborator is appended to the trace. *)
Definition log (e : Event) (s : State) : State :=
  {| visuals_ := visuals_ s; mesh_resources_ := mesh_resources_ s;
     mesh_files_ := mesh_files_ s; visual_heap := visual_heap s;
     next_visual := next_visual s; fs := fs s;
     tmpnam_calls := tmpnam_calls s; trace := trace s ++ [e] |}.

(** Line 157: [mesh_resources_[h] = uri]. *)
Definition set_mesh_resource (h uri : string) (s : State) : State :=
  {| visuals_ := visuals_ s;
     mesh_resources_ := <[h := uri]> (mesh_resources_ s);
     mesh_files_ := mesh_files_ s; visual_heap := visual_heap s;
     next_visual := next_visual s; fs := fs s;
     tmpnam_calls := tmpnam_calls s; trace := trace s |}.

(** Line 153: [mesh_files_[h] = file_name]. *)
Definition set_mesh_file (h file_name : string) (s : State) : State :=
  {| visuals_ := visuals_ s; mesh_resources_ := mesh_resources_ s;
     mesh_files_ := <[h := file_name]> (mesh_files_ s);
     visual_heap := visual_heap s; next_visual := next_visual s;
     fs := fs s; tmpnam_calls := tmpnam_calls s; trace := trace s |}.

(** [visual->f(...)] on the object at address [id]. *)
Definition update_visual (id : nat) (f : OrkObjectVisual -> OrkObjectVisual)
    (s : State) : State :=
  {| visuals_ := visuals_ s; mesh_resources_ := mesh_resources_ s;
     mesh_files_ := mesh_files_ s;
     visual_heap := alter f id (visual_heap s);
     next_visual := next_visual s; fs := fs s;
     tmpnam_calls := tmpnam_calls s; trace := trace s |}.

(** [new OrkObjectVisual(...)] followed by [visuals_.push_back(visual)]. *)
Definition push_new_visual (s : State) : nat * State :=
  let id := next_visual s in
  (id,
   {| visuals_ := visuals_ s ++ [id];
      mesh_resources_ := mesh_resources_ s; mesh_files_ := mesh_files_ s;
      visual_heap := <[id := OrkObjectVisual_new]> (visual_heap s);
      next_visual := S id; fs := fs s;
      tmpnam_calls := tmpnam_calls s;
      trace := trace s ++ [EvNewVisual id] |}).

(** [visuals_.clear()]: the vector held the only references, so the
    visuals are destroyed. *)
Definition clear_visuals (s : State) : State :=
  {| visuals_ := [];
     mesh_resources_ := mesh_resources_ s; mesh_files_ := mesh_files_ s;
     visual_heap := foldr delete (visual_heap s) (visuals_ s);
     next_visual := next_visual s; fs := fs s;
     tmpnam_calls := tmpnam_calls s; trace := trace s |}.

(** [std::tmpnam(0)]: the next name of the sequence. *)
Definition next_tmpnam (s : State) : string * State :=
  (tmpnam (tmpnam_calls s),
   {| visuals_ := visuals_ s; mesh_resources_ := mesh_resources_ s;
      mesh_files_ := mesh_files_ s; visual_heap := visual_heap s;
      next_visual := next_visual s; fs := fs s;
      tmpnam_calls := S (tmpnam_calls s);
      trace := trace s ++ [EvTmpnam] |}).

(** Lines 147-151: the [ofstream] that creates the file [file_name], or
    truncates it, and receives the stream of the attachment. *)
Definition write_file (file_name blob : string) (s : State) : State :=
  {| visuals_ := visuals_ s; mesh_resources_ := mesh_resources_ s;
     mesh_files_ := mesh_files_ s; visual_heap := visual_heap s;
     next_visual := next_visual s;
     fs := <[file_name := blob]> (fs s);
     tmpnam_calls := tmpnam_calls s;
     trace := trace s ++ [EvWriteFile file_name] |}.

(** [std::remove(path)]; on a path that does not exist it fails and
    changes nothing. *)
Definition remove_file (path : string) (s : State) : State :=
  {| visuals_ := visuals_ s; mesh_resources_ := mesh_resources_ s;
     mesh_files_ := mesh_files_ s; visual_heap := visual_heap s;
     next_visual := next_visual s;
     fs := delete path (fs s);
     tmpnam_calls := tmpnam_calls s;
     trace := trace s ++ [EvRemove path] |}.

(** ** processMessage *)

(** Line 108: [object.type.db + object.type.key]. *)
Definition object_hash (object : RecognizedObject) : string :=
  db (type object) +:+ key (type object).

(** The pointer [db] after lines 114-129. *)
Definition backend (env : Collaborators) (object : RecognizedObject)
    : option ObjectDb :=
  match db_params_type env (db (type object)) with
  | NONCORE =>
      createInstance env (db_params_raw_type env (db (type object)))
  | CORE => generateDb env (db (type object))
  end.

(** Lines 114-129: the backend of the object's database.  The exception
    of the plugin loader is caught and leaves [db] null. *)
Definition get_db (env : Collaborators) (object : RecognizedObject)
    (s : State) : option ObjectDb * State :=
  let db_params := db (type object) in
  match db_params_type env db_params with
  | NONCORE =>
      let type_name := db_params_raw_type env db_params in
      (createInstance env type_name, log (EvCreateInstance type_name) s)
  | CORE => (generateDb env db_params, log (EvGenerateDb db_params) s)
  end.

(** Lines 132-139: the object's metadata.  Any exception of the
    constructor is caught and leaves [object_info] default-constructed. *)
Definition get_object_info (env : Collaborators) (object : RecognizedObject)
    (db : option ObjectDb) (s : State) : ObjectInfo * State :=
  (default ObjectInfo_default (ObjectInfo_new env (key (type object)) db),
   log (EvObjectInfo (key (type object))) s).

(** Lines 113-154, the cache miss: ask the backend, and take the mesh
    URI of the metadata or save the attached mesh to a temporary file. *)
Definition fetch_mesh (env : Collaborators) (object : RecognizedObject)
    (s : State) : string * State :=
  let '(db, s) := get_db env object s in
  let '(object_info, s) := get_object_info env object db s in
  match mesh_uri object_info with
  | Some uri => (uri, s)
  | None =>
      match mesh object_info with
      | Some blob =>
          let '(name, s) := next_tmpnam s in
          let file_name := name +:+ ".stl" in
          let s := write_file file_name blob s in
          ("file://" +:+ file_name,
           set_mesh_file (object_hash object) file_name s)
      | None => ("", s)
      end
  end.

(** Lines 107-165: the mesh of the object, from the cache or from the
    backend.  [Return] is the [return] after a mesh that does not load. *)
Definition resolve_mesh (env : Collaborators) (object : RecognizedObject)
    (s : State) : Flow * string * State :=
  match mesh_resources_ s !! object_hash object with
  | Some mesh_resource => (Continue, mesh_resource, s)
  | None =>
      let '(mesh_resource, s) := fetch_mesh env object s in
      if decide (mesh_resource = "") then (Continue, mesh_resource, s)
      else
        let s := set_mesh_resource (object_hash object) mesh_resource s in
        let s := log (EvLoadMesh mesh_resource) s in
        if loadMeshFromResource env mesh_resource
        then (Continue, mesh_resource, s)
        else (Return, mesh_resource, s)
  end.

(** Lines 99-180, the body of the loop for one object. *)
Definition process_object (env : Collaborators) (object : RecognizedObject)
    (s : State) : Flow * State :=
  let '(visual, s) := push_new_visual s in
  match resolve_mesh env object s with
  | (Return, _, s) => (Return, s)
  | (Continue, mesh_resource, s) =>
      let s := update_visual visual (setMessage object mesh_resource) s in
      let s := log (EvGetTransform (frame_id (header object))
                                   (stamp (header object))) s in
      match getTransform env (frame_id (header object))
                             (stamp (header object)) with
      | None => (Return, s)
      | Some (position, orientation) =>
          let s := update_visual visual (setFramePosition position) s in
          let s := update_visual visual (setFrameOrientation orientation) s in
          (Continue, s)
      end
  end.

(** Lines 98-181, the loop over [msg->objects]. *)
Fixpoint process_objects (env : Collaborators)
    (objs : list RecognizedObject) (s : State) : Flow * State :=
  match objs with
  | [] => (Continue, s)
  | object :: rest =>
      match process_object env object s with
      | (Return, s) => (Return, s)
      | (Continue, s) => process_objects env rest s
      end
  end.

(** Lines 90-182. *)
Definition processMessage (env : Collaborators) (msg : RecognizedObjectArray)
    (s : State) : State :=
  (process_objects env (objects msg) (clear_visuals s)).2.

(** Lines 82-87 ([MFDClass::reset] does not touch the members modelled). *)
Definition reset (s : State) : State := clear_visuals s.

(** The entries of a [std::map<std::string, std::string>] in the order
    its iterator visits them: by increasing key. *)
Definition key_le (a b : string * string) : Prop := String.le a.1 b.1.

#[local] Instance key_le_dec : RelDecision key_le.
Proof. intros a b. unfold key_le. apply _. Defined.

Definition entries (m : gmap string string) : list (string * string) :=
  merge_sort key_le (map_to_list m).

(** Lines 75-79, the destructor: [std::remove] on the path of every
    entry of [mesh_files_]. *)
Definition OrkObjectDisplay_delete (s : State) : State :=
  foldl (fun s iter => remove_file iter.2 s) s (entries (mesh_files_ s)).

(** ** The life of a display *)

(** [later s s']: a display that is in state [s] is in state [s'] at the
    same moment or afterwards, before its destruction.  The steps are
    the statements [processMessage] and [reset] are made of. *)
Inductive later (s : State) : State -> Prop :=
  | later_now : later s s
  | later_clear s' :
      later s s' -> later s (clear_visuals s')
  | later_push s' :
      later s s' -> later s (push_new_visual s').2
  | later_resolve env object s' :
      later s s' -> later s (resolve_mesh env object s').2
  | later_update id f s' :
      later s s' -> later s (update_visual id f s')
  | later_transform frame t s' :
      later s s' -> later s (log (EvGetTransform frame t) s').

(** What the pipeline keeps true of [mesh_files_]: a key with a
    temporary file has a cached URI, its file is named after a call
    to [tmpnam] already made, no two keys share a file, and no file
    has been removed yet. *)
Definition registry_wf (s : State) : Prop :=
  (forall h path, mesh_files_ s !! h = Some path ->
     is_Some (mesh_resources_ s !! h) /\
     exists n, n < tmpnam_calls s /\ path = tmpnam n +:+ ".stl") /\
  (forall h1 h2 path,
     mesh_files_ s !! h1 = Some path -> mesh_files_ s !! h2 = Some path ->
     h1 = h2) /\
  (forall path, EvRemove path ∉ trace s).

(** ** Resolution failures (the cases of lines 119-138) *)

(** The plugin of a non-core database failed to load (lines 122-126). *)
Definition PluginLoadFailure (env : Collaborators)
    (object : RecognizedObject) : Prop :=
  db_params_type env (db (type object)) = NONCORE /\
  createInstance env (db_params_raw_type env (db (type object))) = None.

(** The constructor of the metadata threw (lines 136-138). *)
Definition MetadataUnavailable (env : Collaborators)
    (object : RecognizedObject) : Prop :=
  ObjectInfo_new env (key (type object)) (backend env object) = None.

(** The metadata of an object cannot be built on a null backend: the
    constructor throws, which is what the message of line 137, "Object db
    not initialized", reports. *)
Definition needs_backend (env : Collaborators) : Prop :=
  forall k, ObjectInfo_new env k None = None.

End Display.

Arguments State : clear implicits.
Arguments later {Vector3 Quaternion} ObjectDb tmpnam s _.
Arguments OrkObjectVisual : clear implicits.
Arguments Collaborators : clear implicits.

(** ** Concrete scenarios

    A database [store] and a plugin database [plugin] whose plugin does not
    load; objects with a mesh URI, with an attached mesh, with a URI that
    the mesh loader rejects, and with no mesh; one frame the frame manager
    can transform from. *)
Module Scenario.

Definition tmpnam (n : nat) : string := "/tmp/file" +:+ pretty n.

Definition object_info (k : string) (db_name : string) : option ObjectInfo :=
  if decide (k = "cup") then
    Some {| mesh_uri := Some "package://meshes/cup.stl"; mesh := None |}
  else if decide (k = "can") then
    Some {| mesh_uri := None; mesh := Some "solid can" |}
  else if decide (k = "bent") then
    Some {| mesh_uri := Some "package://meshes/bent.stl"; mesh := None |}
  else if decide (k = "ghost") then
    Some {| mesh_uri := None; mesh := None |}
  else if decide (k = "1x" /\ db_name = "db") then
    Some {| mesh_uri := Some "package://meshes/one.stl"; mesh := None |}
  else if decide (k = "x" /\ db_name = "db1") then
    Some {| mesh_uri := Some "package://meshes/two.stl"; mesh := None |}
  else None.

Definition env : Collaborators nat nat string :=
  {| db_params_type := fun d => if decide (d = "plugin") then NONCORE else CORE;
     db_params_raw_type := fun d => d;
     createInstance := fun _ => None;
     generateDb := fun d => Some d;
     ObjectInfo_new := fun k db =>
       match db with Some d => object_info k d | None => None end;
     loadMeshFromResource := fun uri =>
       bool_decide (uri <> "package://meshes/bent.stl");
     getTransform := fun frame _ =>
       if decide (frame = "camera") then Some (7, 9) else None |}.

(** The same collaborators with a mesh loader that accepts every URI. *)
Definition env_loading : Collaborators nat nat string :=
  {| db_params_type := db_params_type env;
     db_params_raw_type := db_params_raw_type env;
     createInstance := createInstance env;
     generateDb := generateDb env;
     ObjectInfo_new := ObjectInfo_new env;
     loadMeshFromResource := fun _ => true;
     getTransform := getTransform env |}.

Definition detection (d k frame : string) : RecognizedObject :=
  {| header := {| frame_id := frame; stamp := {| sec := 10; nsec := 0 |} |};
     type := {| db := d; key := k |} |}.

Definition cup := detection "store" "cup" "camera".
Definition cup_lost := detection "store" "cup" "nowhere".
Definition can := detection "store" "can" "camera".
Definition bent := detection "store" "bent" "camera".
Definition ghost := detection "store" "ghost" "camera".
Definition missing := detection "store" "absent" "camera".
Definition foreign := detection "plugin" "cup" "camera".
Definition one := detection "db" "1x" "camera".
Definition two := detection "db1" "x" "camera".

Definition start : State nat nat := OrkObjectDisplay_new ∅.

End Scenario.

(** Two more objects of the database [store]: one whose [mesh_uri] field
    is the empty string, one with both a [mesh_uri] field and a [mesh]
    attachment. *)
Module Catalogue.

Definition env : Collaborators nat nat string :=
  {| db_params_type := db_params_type Scenario.env;
     db_params_raw_type := db_params_raw_type Scenario.env;
     createInstance := createInstance Scenario.env;
     generateDb := generateDb Scenario.env;
     ObjectInfo_new := fun k db =>
       if decide (k = "blank") then
         Some {| mesh_uri := Some ""; mesh := Some "solid blank" |}
       else if decide (k = "both") then
         Some {| mesh_uri := Some "package://meshes/both.stl";
                 mesh := Some "solid both" |}
       else ObjectInfo_new Scenario.env k db;
     loadMeshFromResource := loadMeshFromResource Scenario.env;
     getTransform := getTransform Scenario.env |}.

Definition blank := Scenario.detection "store" "blank" "camera".
Definition both := Scenario.detection "store" "both" "camera".

End Catalogue.

(** * Properties *)

Section Properties.

Context {Vector3 Quaternion ObjectDb : Type}.
Variable tmpnam : nat -> string.

#[local] Abbreviation State := (State Vector3 Quaternion).
#[local] Abbreviation Collaborators :=
  (Collaborators Vector3 Quaternion ObjectDb).
#[local] Notation "s ~~> t" := (later ObjectDb tmpnam s t) (at level 70).

Implicit Types (s : State) (env : Collaborators) (object : RecognizedObject).

(** ** One resolution *)

Ltac unfold_resolve :=
  unfold resolve_mesh, fetch_mesh, get_object_info, get_db, next_tmpnam,
    write_file, set_mesh_file, set_mesh_resource, log in *.

Lemma get_db_backend env object s :
  (get_db env object s).1 = backend env object.
Proof. unfold get_db, backend. by case_match. Qed.

(** Within one database the hash tells the keys apart. *)
Lemma object_hash_same_db (o1 o2 : RecognizedObject) :
  db (type o1) = db (type o2) -> object_hash o1 = object_hash o2 ->
  type o1 = type o2.
Proof.
  unfold object_hash. destruct (type o1) as [d1 k1], (type o2) as [d2 k2].
  simpl. intros -> Hk. f_equal. by apply (inj (String.app d2)) in Hk.
Qed.

(** A cache hit returns the cached URI and does nothing else. *)
Lemma resolve_mesh_hit env object s u :
  mesh_resources_ s !! object_hash object = Some u ->
  resolve_mesh tmpnam env object s = (Continue, u, s).
Proof. intros Hu. unfold resolve_mesh. by rewrite Hu. Qed.

(** A resolution does not touch the visuals. *)
Lemma resolve_mesh_visuals env object s :
  let s' := (resolve_mesh tmpnam env object s).2 in
  visuals_ s' = visuals_ s /\ visual_heap s' = visual_heap s /\
  next_visual s' = next_visual s.
Proof. unfold_resolve. repeat case_match; simplify_eq/=; done. Qed.

(** A non-empty URI that comes out of a resolution is in the cache. *)
Lemma resolve_mesh_cached env object s fl u s' :
  resolve_mesh tmpnam env object s = (fl, u, s') -> u <> "" ->
  mesh_resources_ s' !! object_hash object = Some u.
Proof.
  unfold_resolve. intros Hr Hu.
  repeat case_match; simplify_eq/=; try done; by rewrite lookup_insert_eq.
Qed.

(** Entries of the cache are never overwritten nor erased. *)
Lemma resolve_mesh_keeps env object s h u :
  mesh_resources_ s !! h = Some u ->
  mesh_resources_ (resolve_mesh tmpnam env object s).2 !! h = Some u.
Proof.
  intros Hh. unfold_resolve.
  repeat case_match; simplify_eq/=; try done;
    (rewrite lookup_insert_ne; [done | congruence]).
Qed.

Lemma later_keeps s s' h u :
  s ~~> s' ->
  mesh_resources_ s !! h = Some u -> mesh_resources_ s' !! h = Some u.
Proof.
  induction 1 as [| | | env object | |]; intros Hh; simpl; auto.
  by apply resolve_mesh_keeps, IHlater.
Qed.

Lemma later_trans s1 s2 s3 :
  s1 ~~> s2 -> s2 ~~> s3 -> s1 ~~> s3.
Proof. intros H12. induction 1; eauto using later. Qed.

Lemma fetch_mesh_uri_push env object s :
  (fetch_mesh tmpnam env object (push_new_visual s).2).1 =
  (fetch_mesh tmpnam env object s).1.
Proof.
  unfold fetch_mesh, get_db, get_object_info.
  destruct (db_params_type env _); simpl;
    (destruct (mesh_uri _); [done|]); by destruct (mesh _).
Qed.

(** ** The loop, seen as a sequence of steps *)

Lemma process_object_later env object s :
  s ~~> (process_object tmpnam env object s).2.
Proof.
  unfold process_object.
  destruct (push_new_visual s) as [visual s0] eqn:Hp.
  assert (s ~~> s0) as H0.
  { replace s0 with (push_new_visual s).2 by (by rewrite Hp).
    apply later_push, later_now. }
  destruct (resolve_mesh tmpnam env object s0) as [[fl u] s1] eqn:Hr.
  assert (s ~~> s1) as H1.
  { replace s1 with (resolve_mesh tmpnam env object s0).2 by (by rewrite Hr).
    by apply later_resolve. }
  destruct fl; [|done].
  destruct (getTransform env _ _) as [[position orientation]|]; simpl;
    repeat first [assumption | apply later_update | apply later_transform].
Qed.

Lemma process_objects_later env objs s :
  s ~~> (process_objects tmpnam env objs s).2.
Proof.
  revert s. induction objs as [|object rest IH]; intros s; simpl.
  - apply later_now.
  - pose proof (process_object_later env object s) as Hs.
    destruct (process_object tmpnam env object s) as [[] s1]; simpl in *.
    + eapply later_trans; [exact Hs | apply IH].
    + exact Hs.
Qed.

Lemma processMessage_later env msg s :
  s ~~> processMessage tmpnam env msg s.
Proof.
  unfold processMessage.
  eapply later_trans; [|apply process_objects_later].
  apply later_clear, later_now.
Qed.

Lemma reset_later s : s ~~> reset s.
Proof. apply later_clear, later_now. Qed.

(** A resolution makes [processMessage] return only when the mesh loader
    rejected the URI it just fetched. *)
Lemma resolve_mesh_return env object s u s' :
  resolve_mesh tmpnam env object s = (Return, u, s') ->
  mesh_resources_ s !! object_hash object = None /\ u <> "" /\
  loadMeshFromResource env u = false.
Proof. unfold resolve_mesh. intros Hr. repeat case_match; by simplify_eq. Qed.

(** A cache miss that fetches a URI the loader rejects: the resolution,
    and with it the turn of the loop, ends in a [return]. *)
Lemma rejected_uri_returns env object s u :
  mesh_resources_ s !! object_hash object = None ->
  (fetch_mesh tmpnam env object s).1 = u -> u <> "" ->
  loadMeshFromResource env u = false ->
  exists s1,
    resolve_mesh tmpnam env object (push_new_visual s).2 = (Return, u, s1) /\
    process_object tmpnam env object s = (Return, s1).
Proof.
  intros Hmiss Hfetch Hu Hload.
  pose proof (fetch_mesh_uri_push env object s) as Hpush.
  unfold process_object.
  destruct (push_new_visual s) as [visual s0] eqn:Hp.
  assert (mesh_resources_ s0 !! object_hash object = None) as Hmiss0.
  { replace s0 with (push_new_visual s).2 by (by rewrite Hp). done. }
  cbn [snd] in Hpush |- *. rewrite Hfetch in Hpush.
  destruct (resolve_mesh tmpnam env object s0) as [[fl u'] s1] eqn:Hr.
  assert (fl = Return /\ u' = u) as [-> ->].
  { unfold resolve_mesh in Hr. rewrite Hmiss0 in Hr.
    destruct (fetch_mesh tmpnam env object s0) as [u0 s0'] eqn:Hf.
    simpl in Hpush. subst u0.
    rewrite decide_False in Hr by done. rewrite Hload in Hr.
    by simplify_eq. }
  by exists s1.
Qed.

(** ** The visuals *)

(** One turn of the loop: the visual is allocated and appended first; it
    is posed only when the turn falls through. *)
Lemma process_object_visual env object s :
  let r := process_object tmpnam env object s in
  let id := next_visual s in
  visuals_ r.2 = visuals_ s ++ [id] /\
  next_visual r.2 = S id /\
  (forall j, j <> id -> visual_heap r.2 !! j = visual_heap s !! j) /\
  exists v, visual_heap r.2 !! id = Some v /\
    match r.1 with
    | Continue =>
        exists u position orientation,
          getTransform env (frame_id (header object)) (stamp (header object))
            = Some (position, orientation) /\
          v = {| vis_message := Some (object, u);
                 vis_position := Some position;
                 vis_orientation := Some orientation |}
    | Return =>
        vis_position v = None /\ vis_orientation v = None /\
        ((vis_message v = None /\
          exists u, u <> "" /\ loadMeshFromResource env u = false) \/
         (exists u, vis_message v = Some (object, u) /\
          getTransform env (frame_id (header object)) (stamp (header object))
            = None))
    end.
Proof.
  unfold process_object.
  destruct (push_new_visual s) as [visual s0] eqn:Hp.
  pose proof (resolve_mesh_visuals env object s0) as (Hv & Hh & Hn).
  destruct (resolve_mesh tmpnam env object s0) as [[fl u] s1] eqn:Hr.
  unfold push_new_visual in Hp. simplify_eq/=.
  destruct fl.
  - destruct (getTransform env _ _) as [[position orientation]|] eqn:Ht;
      simpl; rewrite ?Hv, ?Hn, ?Hh; (split; [done|]); (split; [done|]);
      (split; [intros j Hj; by rewrite ?lookup_alter_ne, lookup_insert_ne by done|]);
      rewrite ?lookup_alter_eq, lookup_insert_eq; simpl;
      eexists; (split; [done|]); eauto 10.
  - simpl. rewrite Hv, Hn, Hh. split; [done|]. split; [done|].
    split; [intros j Hj; by rewrite lookup_insert_ne|].
    rewrite lookup_insert_eq. eexists; split; [done|].
    apply resolve_mesh_return in Hr as (_ & Hu & Hl). simpl. eauto 10.
Qed.

(** The trace of one turn starts with the allocation of its visual. *)
Lemma process_object_trace env object s :
  exists tr, trace (process_object tmpnam env object s).2 =
    trace s ++ EvNewVisual (next_visual s) :: tr /\
    forall id, EvNewVisual id ∉ tr.
Proof.
  unfold process_object, push_new_visual. unfold_resolve.
  repeat case_match; simplify_eq/=; rewrite <- ?(assoc_L (++)); simpl;
    eexists; (split; [done|]); intros id Hid;
    repeat (apply elem_of_cons in Hid as [Hid|Hid]; [done|]);
    by apply elem_of_nil in Hid.
Qed.

Lemma process_objects_app env pre post s :
  process_objects tmpnam env (pre ++ post) s =
  match process_objects tmpnam env pre s with
  | (Continue, s') => process_objects tmpnam env post s'
  | (Return, s') => (Return, s')
  end.
Proof.
  revert s. induction pre as [|object pre IH]; intros s; simpl; [done|].
  destruct (process_object tmpnam env object s) as [[] s1]; [apply IH | done].
Qed.

(** The loop appends one fresh visual per object it reaches, and leaves
    the visuals allocated before it alone. *)
Lemma process_objects_visuals env objs s :
  let r := process_objects tmpnam env objs s in
  exists n, n <= length objs /\
    (r.1 = Continue -> n = length objs) /\
    visuals_ r.2 = visuals_ s ++ seq (next_visual s) n /\
    next_visual r.2 = next_visual s + n /\
    (forall j, j < next_visual s -> visual_heap r.2 !! j = visual_heap s !! j).
Proof.
  revert s. induction objs as [|object rest IH]; intros s; simpl.
  { exists 0. simpl. rewrite app_nil_r. auto with lia. }
  pose proof (process_object_visual env object s) as (Hv & Hn & Hh & _).
  destruct (process_object tmpnam env object s) as [[] s1]; simpl in *.
  - destruct (IH s1) as (n & Hle & Hc & Hv' & Hn' & Hh').
    exists (S n). rewrite Hv', Hn', Hv, Hn. simpl.
    rewrite <- (assoc_L (++)). simpl.
    split; [lia|]. split; [intros; f_equal; auto|].
    split; [done|]. split; [lia|].
    intros j Hj. rewrite Hh' by lia. apply Hh. lia.
  - exists 1. simpl. split; [lia|]. split; [done|].
    split; [done|]. split; [lia|].
    intros j Hj. apply Hh. lia.
Qed.

Lemma process_objects_trace env objs s :
  let r := process_objects tmpnam env objs s in
  exists tr, trace r.2 = trace s ++ tr /\
    forall id, next_visual s <= id < next_visual r.2 -> EvNewVisual id ∈ tr.
Proof.
  revert s. induction objs as [|object rest IH]; intros s; simpl.
  { exists []. rewrite app_nil_r. split; [done|]. lia. }
  pose proof (process_object_visual env object s) as (_ & Hn & _).
  destruct (process_object_trace env object s) as (tr1 & Ht1 & _).
  destruct (process_object tmpnam env object s) as [[] s1]; simpl in *.
  - destruct (IH s1) as (tr & Ht & Hin).
    exists ((EvNewVisual (next_visual s) :: tr1) ++ tr).
    rewrite Ht, Ht1, <- (assoc_L (++)). split; [done|].
    intros id Hid. apply elem_of_app.
    destruct (decide (id = next_visual s)) as [->|]; [left; left|].
    right. apply Hin. lia.
  - exists (EvNewVisual (next_visual s) :: tr1). split; [done|].
    intros id Hid. replace id with (next_visual s) by lia. left.
Qed.

Lemma lookup_foldr_delete_elem (heap : gmap nat (OrkObjectVisual Vector3 Quaternion))
    (ids : list nat) (id : nat) :
  id ∈ ids -> foldr delete heap ids !! id = None.
Proof.
  induction ids as [|i ids IH]; simpl; [by intros ?%elem_of_nil|].
  intros [->|Hin]%elem_of_cons; [apply lookup_delete_eq|].
  destruct (decide (i = id)) as [->|]; [apply lookup_delete_eq|].
  rewrite lookup_delete_ne by done. auto.
Qed.

(** The references in [visuals_] are to objects already allocated, all
    through the life of a display. *)
Lemma later_visuals_allocated files s :
  OrkObjectDisplay_new files ~~> s ->
  forall id, id ∈ visuals_ s -> id < next_visual s.
Proof.
  induction 1 as [| s' H IH | s' H IH | env object s' H IH
                  | id' f s' H IH | frame t s' H IH]; intros id; simpl.
  - by intros ?%elem_of_nil.
  - by intros ?%elem_of_nil.
  - intros [Hid|Hid]%elem_of_app; [apply IH in Hid; lia|].
    apply list_elem_of_singleton in Hid. lia.
  - destruct (resolve_mesh_visuals env object s') as (-> & _ & ->). apply IH.
  - apply IH.
  - apply IH.
Qed.

(** C7. After [processMessage] the set of visuals holds only visuals
    allocated during that call, and none of the visuals it held before:
    those are out of the set and destroyed. *)
Theorem visuals_of_latest_message_only env msg s :
  (forall id, id ∈ visuals_ s -> id < next_visual s) ->
  let s' := processMessage tmpnam env msg s in
  (forall id, id ∈ visuals_ s' ->
     (next_visual s <= id < next_visual s') /\
     (EvNewVisual id ∈ drop (length (trace s)) (trace s'))) /\
  (forall id, id ∈ visuals_ s ->
     (id ∉ visuals_ s') /\ visual_heap s' !! id = None).
Proof.
  intros Hwf. unfold processMessage. simpl.
  destruct (process_objects_visuals env (objects msg) (clear_visuals s))
    as (n & _ & _ & Hv & Hn & Hh).
  destruct (process_objects_trace env (objects msg) (clear_visuals s))
    as (tr & Ht & Hin).
  simpl in *. rewrite Hv, Hn, Ht, drop_app_length.
  assert (forall id, id ∈ seq (next_visual s) n ->
            next_visual s <= id < next_visual s + n) as Hseq.
  { intros id Hid%elem_of_seq. lia. }
  split.
  - intros id Hid. split; [auto|]. apply Hin. rewrite Hn. auto.
  - intros id Hid. split.
    + intros Hid'%Hseq. apply Hwf in Hid. lia.
    + rewrite Hh by auto. by apply lookup_foldr_delete_elem.
Qed.

(** C10. The visual of a detection is allocated and appended to
    [visuals_] before anything else is done for the detection: the trace
    of its turn starts with the allocation, the mesh resolution and the
    transform lookup come after.  So every detection the loop reaches has
    its visual in the final set; when its own mesh load or its own
    transform lookup fails, the visual stays there as the last one,
    without a position and without an orientation. *)
Theorem visual_appended_before_resolution env pre object post s s_i :
  process_objects tmpnam env pre (clear_visuals s) = (Continue, s_i) ->
  let id := next_visual s_i in
  let r := process_object tmpnam env object s_i in
  let s' := processMessage tmpnam env {| objects := pre ++ object :: post |} s in
  (exists tr, trace r.2 = trace s_i ++ EvNewVisual id :: tr /\
     forall id', EvNewVisual id' ∉ tr) /\
  visuals_ s' !! length pre = Some id /\
  exists v, visual_heap s' !! id = Some v /\
    (r.1 = Return ->
       visuals_ s' = visuals_ s_i ++ [id] /\
       vis_position v = None /\ vis_orientation v = None).
Proof.
  intros Hpre id r s'. split; [apply process_object_trace|].
  destruct (process_objects_visuals env pre (clear_visuals s))
    as (n & _ & Hn & Hv & _).
  rewrite Hpre in Hn, Hv. simpl in Hn, Hv. specialize (Hn eq_refl). subst n.
  assert (length (visuals_ s_i) = length pre) as Hlen
    by (by rewrite Hv, length_seq).
  subst s'. unfold processMessage. simpl.
  rewrite process_objects_app, Hpre. simpl.
  pose proof (process_object_visual env object s_i)
    as (Hv1 & Hn1 & Hh1 & v & Hv' & Hc).
  fold r id in Hv1, Hn1, Hh1, Hv', Hc |- *.
  destruct r as [[] s1]; simpl in *.
  - destruct (process_objects_visuals env post s1)
      as (m & _ & _ & Hv2 & _ & Hh2).
    rewrite Hv2, Hv1, <- (assoc_L (++)), lookup_app_r by lia.
    split; [by replace (length pre - length (visuals_ s_i)) with 0 by lia|].
    exists v. rewrite Hh2 by lia. done.
  - rewrite Hv1, lookup_app_r by lia.
    split; [by replace (length pre - length (visuals_ s_i)) with 0 by lia|].
    exists v. split; [done|]. intros _. tauto.
Qed.

(** C2, as the code has it.  In a batch of three detections where the
    transform lookup succeeds for the first and fails for the second, the
    final set starts with the visual of the first detection and never has
    one for the third; when, besides, no mesh fails to load, it is exactly
    the visual of the first detection, posed, followed by the visual of
    the second, which has its mesh assignment but neither position nor
    orientation. *)
Theorem transform_failure_on_second_detection env o1 o2 o3 s :
  is_Some (getTransform env (frame_id (header o1)) (stamp (header o1))) ->
  getTransform env (frame_id (header o2)) (stamp (header o2)) = None ->
  let s' := processMessage tmpnam env {| objects := [o1; o2; o3] |} s in
  let id1 := next_visual s in
  visuals_ s' !! 0 = Some id1 /\
  visuals_ s' !! 2 = None /\
  ((forall u, loadMeshFromResource env u = true) ->
   visuals_ s' = [id1; S id1] /\
   (exists u1 position orientation,
      visual_heap s' !! id1 =
        Some {| vis_message := Some (o1, u1);
                vis_position := Some position;
                vis_orientation := Some orientation |}) /\
   (exists u2,
      visual_heap s' !! S id1 =
        Some {| vis_message := Some (o2, u2);
                vis_position := None; vis_orientation := None |})).
Proof.
  intros [pq Ht1] Ht2. unfold processMessage. simpl.
  pose proof (process_object_visual env o1 (clear_visuals s))
    as (Hv1 & Hn1 & Hh1 & v1 & Hv1' & Hc1).
  destruct (process_object tmpnam env o1 (clear_visuals s)) as [[] s1];
    simpl in *.
  - destruct Hc1 as (u1 & position & orientation & _ & ->).
    pose proof (process_object_visual env o2 s1)
      as (Hv2 & Hn2 & Hh2 & v2 & Hv2' & Hc2).
    destruct (process_object tmpnam env o2 s1) as [[] s2]; simpl in *.
    { destruct Hc2 as (? & ? & ? & Hc2 & _). congruence. }
    rewrite Hv2, Hv1, Hn1 in *. simpl.
    split; [done|]. split; [done|]. intros Hload. split; [done|].
    destruct Hc2 as (Hp & Ho & [(_ & u & _ & Hu)|(u2 & Hm & _)]);
      [rewrite Hload in Hu; done|].
    split.
    + exists u1, position, orientation. rewrite Hh2 by lia. done.
    + exists u2. rewrite Hv2'. destruct v2; simpl in *. by subst.
  - rewrite Hv1. simpl. split; [done|]. split; [done|]. intros Hload.
    destruct Hc1 as (_ & _ & [(_ & u & _ & Hu)|(u & _ & Hu)]);
      [rewrite Hload in Hu; done | congruence].
Qed.

(** C4, as the code has it.  A mesh that does not load makes
    [processMessage] return (line 162): when the loop reaches a detection
    whose freshly fetched URI the loader rejects, the message ends there.
    The final state is the one right after that detection's turn,
    whatever follows it in the batch, and the set of visuals ends with the
    visual of the failing detection. *)
Theorem mesh_load_failure_abandons_batch env pre object post s s_i u :
  process_objects tmpnam env pre (clear_visuals s) = (Continue, s_i) ->
  mesh_resources_ s_i !! object_hash object = None ->
  (fetch_mesh tmpnam env object s_i).1 = u -> u <> "" ->
  loadMeshFromResource env u = false ->
  let s' := processMessage tmpnam env {| objects := pre ++ object :: post |} s in
  s' = (process_object tmpnam env object s_i).2 /\
  s' = processMessage tmpnam env {| objects := pre ++ [object] |} s /\
  length (visuals_ s') = S (length pre).
Proof.
  intros Hpre Hmiss Hfetch Hu Hload.
  destruct (rejected_uri_returns env object s_i u) as (s1 & _ & Hret);
    [done..|].
  unfold processMessage. simpl.
  rewrite !process_objects_app, Hpre. simpl.
  pose proof (process_object_visual env object s_i) as (Hv & _).
  rewrite Hret in Hv |- *. simpl. split; [done|]. split; [done|].
  destruct (process_objects_visuals env pre (clear_visuals s))
    as (n & _ & Hn & Hv0 & _).
  rewrite Hpre in Hn, Hv0. simpl in *. rewrite Hv, Hv0, Hn by done.
  rewrite length_app, length_seq. simpl. lia.
Qed.

(** ** Resolution failures *)

(** With a backend that did not load there is no metadata. *)
Lemma plugin_failure_no_metadata env object :
  PluginLoadFailure env object -> needs_backend env ->
  MetadataUnavailable env object.
Proof.
  intros [Hty Hnone] Hneeds. unfold MetadataUnavailable, backend.
  by rewrite Hty, Hnone.
Qed.

(** A turn of the loop changes the maps, the files and the count of
    temporary names as its resolution does, and extends its trace. *)
Lemma process_object_resolve env object s :
  let r := process_object tmpnam env object s in
  let q := resolve_mesh tmpnam env object (push_new_visual s).2 in
  mesh_resources_ r.2 = mesh_resources_ q.2 /\
  mesh_files_ r.2 = mesh_files_ q.2 /\
  fs r.2 = fs q.2 /\ tmpnam_calls r.2 = tmpnam_calls q.2 /\
  exists tr, trace r.2 = trace q.2 ++ tr.
Proof.
  unfold process_object.
  destruct (push_new_visual s) as [visual s0]. cbn [snd].
  destruct (resolve_mesh tmpnam env object s0) as [[[] u] s1]; simpl.
  - destruct (getTransform env _ _) as [[position orientation]|]; simpl;
      repeat (split; [done|]); by eexists.
  - repeat (split; [done|]). exists []. by rewrite app_nil_r.
Qed.

(** A cache miss starts with a backend call followed by the metadata
    query for the object's key. *)
Lemma resolve_mesh_miss_trace env object s :
  mesh_resources_ s !! object_hash object = None ->
  exists e tr, is_backend_call e = true /\
    trace (resolve_mesh tmpnam env object s).2 =
      trace s ++ [e; EvObjectInfo (key (type object))] ++ tr.
Proof.
  intros Hmiss. unfold resolve_mesh. rewrite Hmiss. unfold_resolve.
  repeat case_match; simplify_eq/=; rewrite <- ?(assoc_L (++)); simpl;
    eexists _, _; (split; [|reflexivity]); done.
Qed.

(** A cache miss without metadata leaves both maps and the files alone. *)
Lemma resolve_mesh_unavailable env object s :
  mesh_resources_ s !! object_hash object = None ->
  MetadataUnavailable env object ->
  let q := resolve_mesh tmpnam env object s in
  q.1 = (Continue, "") /\ mesh_resources_ q.2 = mesh_resources_ s /\
  mesh_files_ q.2 = mesh_files_ s /\ fs q.2 = fs s.
Proof.
  intros Hmiss Hmeta q. subst q. unfold resolve_mesh. rewrite Hmiss.
  unfold fetch_mesh.
  pose proof (get_db_backend env object s) as Hdb.
  destruct (get_db env object s) as [d s0] eqn:Hg. simpl in Hdb. subst d.
  unfold get_object_info. unfold MetadataUnavailable in Hmeta.
  rewrite !Hmeta. simpl.
  unfold get_db in Hg. by case_match; simplify_eq/=.
Qed.

(** A resolution changes the cache at the hash of its object only. *)
Lemma resolve_mesh_other env object s h :
  object_hash object <> h ->
  mesh_resources_ (resolve_mesh tmpnam env object s).2 !! h =
  mesh_resources_ s !! h.
Proof.
  intros Hne. unfold_resolve.
  repeat case_match; simplify_eq/=; try done; by rewrite lookup_insert_ne.
Qed.

Lemma process_objects_unavailable env objs s h :
  mesh_resources_ s !! h = None ->
  (forall o, o ∈ objs -> object_hash o = h -> MetadataUnavailable env o) ->
  mesh_resources_ (process_objects tmpnam env objs s).2 !! h = None.
Proof.
  revert s. induction objs as [|object rest IH]; intros s Hmiss Hfail;
    simpl; [done|].
  pose proof (process_object_resolve env object s) as (Hres & _).
  assert (mesh_resources_ (process_object tmpnam env object s).2 !! h = None)
    as Hmiss1.
  { rewrite Hres. destruct (decide (object_hash object = h)) as [Heq|Hne].
    - edestruct (resolve_mesh_unavailable env object (push_new_visual s).2)
        as (_ & -> & _); [by rewrite Heq | apply Hfail; [left|done] | done].
    - by rewrite resolve_mesh_other. }
  destruct (process_object tmpnam env object s) as [[] s1]; simpl in *;
    [|done].
  apply IH; [done|]. intros o Ho. apply Hfail. by right.
Qed.

Lemma process_objects_other env objs s h :
  (forall o, o ∈ objs -> object_hash o <> h) ->
  mesh_resources_ (process_objects tmpnam env objs s).2 !! h =
  mesh_resources_ s !! h.
Proof.
  revert s. induction objs as [|object rest IH]; intros s Hne; simpl; [done|].
  pose proof (process_object_resolve env object s) as (Hres & _).
  assert (mesh_resources_ (process_object tmpnam env object s).2 !! h =
          mesh_resources_ s !! h) as Hsame.
  { rewrite Hres. rewrite resolve_mesh_other; [done|]. apply Hne. left. }
  destruct (process_object tmpnam env object s) as [[] s1]; simpl in *;
    [|done].
  rewrite IH; [done|]. intros o Ho. apply Hne. by right.
Qed.

(** The trace of the loop on a batch starts with the trace of the turn of
    its first object. *)
Lemma process_objects_cons_trace env object rest s :
  exists tr, trace (process_objects tmpnam env (object :: rest) s).2 =
    trace (process_object tmpnam env object s).2 ++ tr.
Proof.
  simpl. destruct (process_object tmpnam env object s) as [[] s1]; simpl.
  - destruct (process_objects_trace env rest s1) as (tr & Ht & _). eauto.
  - exists []. by rewrite app_nil_r.
Qed.

(** C5. A resolution failure is not cached.  When every resolution made
    for a cache key while message N is processed fails, by a plugin that
    does not load or by metadata that cannot be built, the key is absent
    from the cache after the message.  In message N+1, whatever the
    collaborators answer then, the first detection with that key that the
    loop reaches is resolved afresh: right after the allocation of its
    visual comes a backend call and the metadata query for its key. *)
Theorem resolution_failure_not_cached env1 env2 msg object pre rest s s_i :
  mesh_resources_ s !! object_hash object = None ->
  (forall o, o ∈ objects msg -> object_hash o = object_hash object ->
     MetadataUnavailable env1 o \/
     (PluginLoadFailure env1 o /\ needs_backend env1)) ->
  let s1 := processMessage tmpnam env1 msg s in
  (forall o, o ∈ pre -> object_hash o <> object_hash object) ->
  process_objects tmpnam env2 pre (clear_visuals s1) = (Continue, s_i) ->
  let s2 := processMessage tmpnam env2
              {| objects := pre ++ object :: rest |} s1 in
  mesh_resources_ s1 !! object_hash object = None /\
  exists e tr, is_backend_call e = true /\
    trace s2 =
      trace s_i ++ [EvNewVisual (next_visual s_i); e;
                    EvObjectInfo (key (type object))] ++ tr.
Proof.
  intros Hmiss Hfail s1 Hpre Hreach s2.
  assert (mesh_resources_ s1 !! object_hash object = None) as Hmiss1.
  { apply process_objects_unavailable; [done|].
    intros o Ho Hh. destruct (Hfail o Ho Hh) as [|[]]; [done|].
    by apply plugin_failure_no_metadata. }
  split; [done|]. subst s2. unfold processMessage.
  cbn [objects]. rewrite process_objects_app, Hreach.
  assert (mesh_resources_ s_i !! object_hash object = None) as Hmiss_i.
  { pose proof (process_objects_other env2 pre (clear_visuals s1)
                  (object_hash object) Hpre) as Hsame.
    rewrite Hreach in Hsame. simpl in Hsame. by rewrite Hsame. }
  destruct (process_objects_cons_trace env2 object rest s_i) as (tr2 & ->).
  destruct (process_object_resolve env2 object s_i)
    as (_ & _ & _ & _ & tr1 & ->).
  destruct (resolve_mesh_miss_trace env2 object (push_new_visual s_i).2)
    as (e & tr0 & He & ->); [done|].
  exists e, (tr0 ++ tr1 ++ tr2). split; [done|].
  simpl. by rewrite <- !(assoc_L (++)).
Qed.

(** ** The mesh cache *)

(** C6. Once a resolution of an object type has produced a URI, every
    later resolution of the same (database, key) pair, in the same message
    or in a later one and whatever the collaborators would answer then, is
    a cache hit: it returns that URI and leaves the whole state as it is,
    trace and file system included, so it makes no backend call and does
    no disk I/O. *)
Theorem resolved_key_hits_cache env object s fl u s1 :
  resolve_mesh tmpnam env object s = (fl, u, s1) -> u <> "" ->
  forall s2 env' object',
    s1 ~~> s2 -> type object' = type object ->
    resolve_mesh tmpnam env' object' s2 = (Continue, u, s2) /\
    filter is_backend_call (trace (resolve_mesh tmpnam env' object' s2).2) =
      filter is_backend_call (trace s2) /\
    filter is_disk_io (trace (resolve_mesh tmpnam env' object' s2).2) =
      filter is_disk_io (trace s2).
Proof.
  intros Hr Hu s2 env' object' Hlater Htype.
  assert (resolve_mesh tmpnam env' object' s2 = (Continue, u, s2)) as Hhit.
  { apply resolve_mesh_hit.
    replace (object_hash object') with (object_hash object)
      by (unfold object_hash; by rewrite Htype).
    eapply later_keeps; [exact Hlater|]. by eapply resolve_mesh_cached. }
  by rewrite Hhit.
Qed.

(** ** Temporary files *)

(** A resolution leaves the temporary file of a cached key alone. *)
Lemma resolve_mesh_keeps_file env object s h :
  is_Some (mesh_resources_ s !! h) ->
  mesh_files_ (resolve_mesh tmpnam env object s).2 !! h = mesh_files_ s !! h.
Proof.
  intros [u Hu]. unfold_resolve.
  repeat case_match; simplify_eq/=; try done;
    (rewrite lookup_insert_ne; [done | congruence]).
Qed.

Lemma later_keeps_file s s' h :
  s ~~> s' -> is_Some (mesh_resources_ s !! h) ->
  mesh_files_ s' !! h = mesh_files_ s !! h.
Proof.
  induction 1 as [| | | env object s' Hs' IH | |]; intros Hh; simpl; auto.
  rewrite resolve_mesh_keeps_file; [auto|].
  destruct Hh as [u Hu]. exists u. by eapply later_keeps.
Qed.

(** C8. Resolving, on a cache miss, an object whose metadata has a [mesh]
    attachment and no [mesh_uri] field asks [tmpnam] for one name and
    writes one file, the name with [.stl] appended, holding the
    attachment; the file system changes at that path only (and grows by
    one file when the path was free).  The path is recorded in
    [mesh_files_] and the URI [file://path] in the cache, both under the
    object's hash; every later resolution of the same (database, key)
    pair is a cache hit on that URI that changes nothing, so it creates
    no file, and the recorded path stays the same. *)
Theorem attached_mesh_saved_once env object s blob :
  mesh_resources_ s !! object_hash object = None ->
  ObjectInfo_new env (key (type object)) (backend env object) =
    Some {| mesh_uri := None; mesh := Some blob |} ->
  let file_name := tmpnam (tmpnam_calls s) +:+ ".stl" in
  let uri := "file://" +:+ file_name in
  let q := resolve_mesh tmpnam env object s in
  q.1.2 = uri /\
  (exists e, is_backend_call e = true /\
     trace q.2 = trace s ++ [e; EvObjectInfo (key (type object)); EvTmpnam;
                             EvWriteFile file_name; EvLoadMesh uri]) /\
  fs q.2 = <[file_name := blob]> (fs s) /\
  (fs s !! file_name = None -> size (fs q.2) = S (size (fs s))) /\
  mesh_files_ q.2 = <[object_hash object := file_name]> (mesh_files_ s) /\
  mesh_resources_ q.2 = <[object_hash object := uri]> (mesh_resources_ s) /\
  forall s2 env' object',
    q.2 ~~> s2 -> type object' = type object ->
    resolve_mesh tmpnam env' object' s2 = (Continue, uri, s2) /\
    mesh_files_ s2 !! object_hash object = Some file_name.
Proof.
  intros Hmiss Hinfo file_name uri q.
  assert (q.1.2 = uri /\
    (exists e, is_backend_call e = true /\
       trace q.2 = trace s ++ [e; EvObjectInfo (key (type object)); EvTmpnam;
                               EvWriteFile file_name; EvLoadMesh uri]) /\
    fs q.2 = <[file_name := blob]> (fs s) /\
    mesh_files_ q.2 = <[object_hash object := file_name]> (mesh_files_ s) /\
    mesh_resources_ q.2 = <[object_hash object := uri]> (mesh_resources_ s))
    as (Huri & Htrace & Hfs & Hfiles & Hres).
  { subst q uri file_name. unfold resolve_mesh. rewrite Hmiss.
    unfold fetch_mesh.
    pose proof (get_db_backend env object s) as Hdb.
    destruct (get_db env object s) as [d s0] eqn:Hg. simpl in Hdb. subst d.
    unfold get_object_info. rewrite !Hinfo.
    change (default ObjectInfo_default (Some ?x)) with x.
    cbn [mesh_uri mesh].
    assert (exists e, is_backend_call e = true /\ s0 = log e s)
      as (e & He & ->).
    { unfold get_db in Hg. destruct (db_params_type env _);
        injection Hg as _ <-; (eexists; split; [|reflexivity]); done. }
    unfold next_tmpnam. cbn [tmpnam_calls log].
    cbv beta iota zeta.
    set (file_name := tmpnam (tmpnam_calls s) +:+ ".stl").
    rewrite decide_False by done.
    destruct (loadMeshFromResource env _); cbn -[String.append];
      (split; [done|]); (split; [|done]); exists e; (split; [done|]);
      by rewrite <- !(assoc_L (++)). }
  repeat (split; [done|]).
  split; [intros Hfree; rewrite Hfs; by apply map_size_insert_None|].
  repeat (split; [done|]).
  intros s2 env' object' Hlater Htype.
  assert (mesh_resources_ q.2 !! object_hash object = Some uri) as Hcached
    by (by rewrite Hres, lookup_insert_eq).
  split.
  - apply resolve_mesh_hit.
    replace (object_hash object') with (object_hash object)
      by (unfold object_hash; by rewrite Htype).
    by eapply later_keeps.
  - rewrite (later_keeps_file q.2 s2) by eauto.
    by rewrite Hfiles, lookup_insert_eq.
Qed.

(** *** The registry of temporary files *)

Lemma string_length_app (s1 s2 : string) :
  String.length (s1 +:+ s2) = String.length s1 + String.length s2.
Proof. induction s1 as [|a s1 IH]; simpl; [done | by rewrite IH]. Qed.

Lemma string_app_inj_r (t s1 s2 : string) : s1 +:+ t = s2 +:+ t -> s1 = s2.
Proof.
  revert s2. induction s1 as [|a s1 IH]; intros [|b s2] H; simpl in H.
  - done.
  - apply (f_equal String.length) in H.
    rewrite !string_length_app in H. simpl in H. lia.
  - apply (f_equal String.length) in H.
    rewrite !string_length_app in H. simpl in H. lia.
  - injection H as -> H. f_equal. by apply IH.
Qed.

Lemma registry_wf_new files :
  registry_wf tmpnam (OrkObjectDisplay_new (Vector3:=Vector3)
                        (Quaternion:=Quaternion) files).
Proof.
  split; [|split]; simpl.
  - intros h path Hh. by rewrite lookup_empty in Hh.
  - intros h1 h2 path Hh. by rewrite lookup_empty in Hh.
  - intros path Hin. by apply elem_of_nil in Hin.
Qed.

(** What one resolution does to the registry: nothing, or one new name
    from [tmpnam] recorded under the hash of a missed object, which is
    cached in the same resolution. *)
Lemma resolve_mesh_registry env object s :
  let q := (resolve_mesh tmpnam env object s).2 in
  (exists tr, trace q = trace s ++ tr /\ forall path, EvRemove path ∉ tr) /\
  (forall h, is_Some (mesh_resources_ s !! h) ->
     is_Some (mesh_resources_ q !! h)) /\
  ((mesh_files_ q = mesh_files_ s /\ tmpnam_calls q = tmpnam_calls s) \/
   (mesh_files_ q = <[object_hash object := tmpnam (tmpnam_calls s) +:+ ".stl"]>
                      (mesh_files_ s) /\
    tmpnam_calls q = S (tmpnam_calls s) /\
    is_Some (mesh_resources_ q !! object_hash object))).
Proof.
  intros q. split; [|split].
  - subst q. unfold_resolve.
    repeat case_match; simplify_eq/=; rewrite <- ?(assoc_L (++)); simpl;
      (eexists; split; [first [reflexivity | symmetry; apply app_nil_r]|]);
      intros path Hin;
      repeat (apply elem_of_cons in Hin as [Hin|Hin]; [done|]);
      by apply elem_of_nil in Hin.
  - intros h [u Hu]. exists u. by apply resolve_mesh_keeps.
  - subst q. unfold_resolve.
    repeat case_match; simplify_eq/=; try (by left);
      right; rewrite lookup_insert_eq; eauto.
Qed.

Lemma resolve_mesh_registry_wf env object s :
  Inj (=) (=) tmpnam ->
  registry_wf tmpnam s ->
  registry_wf tmpnam (resolve_mesh tmpnam env object s).2.
Proof.
  intros Hinj (Hnames & Hshare & Hrm).
  destruct (resolve_mesh_registry env object s)
    as ((tr & Htr & Hnorm) & Hres & Hfiles).
  split; [|split].
  - intros h path Hh.
    destruct Hfiles as [(Hf & Hc)|(Hf & Hc & Hnew)]; rewrite Hc.
    + rewrite Hf in Hh. destruct (Hnames h path Hh) as (Hs & n & Hn & ->).
      eauto.
    + rewrite Hf in Hh. apply lookup_insert_Some in Hh as [[<- <-]|[Hne Hh]].
      * split; [done|]. exists (tmpnam_calls s). auto with lia.
      * destruct (Hnames h path Hh) as (Hs & n & Hn & ->).
        split; [auto|]. exists n. auto with lia.
  - intros h1 h2 path H1 H2.
    destruct Hfiles as [(Hf & Hc)|(Hf & Hc & Hnew)]; rewrite Hf in H1, H2;
      [by eapply Hshare|].
    assert (forall h, mesh_files_ s !! h =
              Some (tmpnam (tmpnam_calls s) +:+ ".stl") -> False) as Hfresh.
    { intros h Hh. destruct (Hnames h _ Hh) as (_ & n & Hn & Heq).
      apply string_app_inj_r, Hinj in Heq. lia. }
    apply lookup_insert_Some in H1 as [[<- <-]|[Hne1 H1]];
      apply lookup_insert_Some in H2 as [[<- Heq]|[Hne2 H2]];
      try done; subst; try (by eapply Hshare); by edestruct Hfresh.
  - intros path. rewrite Htr. intros [Hin|Hin]%elem_of_app.
    + by eapply Hrm.
    + by eapply Hnorm.
Qed.

Lemma later_registry_wf s s' :
  Inj (=) (=) tmpnam ->
  s ~~> s' -> registry_wf tmpnam s -> registry_wf tmpnam s'.
Proof.
  intros Hinj.
  assert (forall s0 e, (forall path, e <> EvRemove path) ->
            registry_wf tmpnam s0 ->
            forall vs (h : gmap nat (OrkObjectVisual Vector3 Quaternion)) nv,
            registry_wf tmpnam
              {| visuals_ := vs; mesh_resources_ := mesh_resources_ s0;
                 mesh_files_ := mesh_files_ s0; visual_heap := h;
                 next_visual := nv; fs := fs s0;
                 tmpnam_calls := tmpnam_calls s0;
                 trace := trace s0 ++ [e] |}) as Hlog.
  { intros s0 e He (Hn & Hs & Hrm) vs h nv. split; [done|]. split; [done|].
    simpl. intros path [Hin|Hin]%elem_of_app; [by eapply Hrm|].
    apply elem_of_cons in Hin as [Hin|Hin]; [by eapply He|].
    by apply elem_of_nil in Hin. }
  induction 1 as [| s' H IH | s' H IH | env object s' H IH
                  | id f s' H IH | frame t s' H IH]; intros Hwf.
  - done.
  - exact (IH Hwf).
  - by apply Hlog, IH.
  - by apply resolve_mesh_registry_wf, IH.
  - exact (IH Hwf).
  - by apply Hlog, IH.
Qed.

(** A recorded path is never replaced nor dropped. *)
Lemma later_keeps_path s s' h path :
  registry_wf tmpnam s -> s ~~> s' ->
  mesh_files_ s !! h = Some path -> mesh_files_ s' !! h = Some path.
Proof.
  intros (Hnames & _) Hlater Hh.
  rewrite (later_keeps_file s s') by (done || by eapply Hnames). done.
Qed.

(** *** The destructor *)

Lemma remove_files_spec (l : list (string * string)) s :
  let s' := foldl (fun s iter => remove_file iter.2 s) s l in
  trace s' = trace s ++ (EvRemove <$> l.*2) /\
  (forall path, path ∈ l.*2 -> fs s' !! path = None) /\
  (forall path, fs s !! path = None -> fs s' !! path = None).
Proof.
  revert s. induction l as [|[k p] l IH]; intros s; simpl.
  { rewrite app_nil_r. split; [done|]. split; [|done].
    by intros path ?%elem_of_nil. }
  destruct (IH (remove_file p s)) as (Ht & Hin & Hout).
  rewrite Ht. simpl. rewrite <- (assoc_L (++)). split; [done|]. split.
  - intros path [->|Hp]%elem_of_cons; [|auto].
    apply Hout. simpl. apply lookup_delete_eq.
  - intros path Hp. apply Hout. simpl.
    destruct (decide (p = path)) as [->|]; [apply lookup_delete_eq|].
    by rewrite lookup_delete_ne.
Qed.

Lemma entries_paths (m : gmap string string) :
  (forall h1 h2 path, m !! h1 = Some path -> m !! h2 = Some path -> h1 = h2) ->
  NoDup (entries m).*2 /\
  forall h path, m !! h = Some path -> path ∈ (entries m).*2.
Proof.
  intros Hshare. unfold entries.
  assert (merge_sort key_le (map_to_list m) ≡ₚ map_to_list m) as Hperm
    by apply merge_sort_Permutation.
  split.
  - rewrite Hperm. apply NoDup_fmap_2_strong; [|apply NoDup_map_to_list].
    intros [h1 p1] [h2 p2] H1%elem_of_map_to_list H2%elem_of_map_to_list Heq.
    simpl in Heq. subst p2. f_equal. by eapply Hshare.
  - intros h path Hh. rewrite Hperm. apply list_elem_of_fmap.
    exists (h, path). split; [done|]. by apply elem_of_map_to_list.
Qed.

(** C9. Over the whole life of a display, from its construction through
    any sequence of messages and resets to its destruction, [std::remove]
    is called exactly once on every path that was ever recorded in
    [mesh_files_], namely by the destructor, and after the destructor none
    of these paths exists in the file system.  [tmpnam] is taken to return
    a different name at each call, as the C standard requires of it. *)
Theorem teardown_removes_every_temp_file files (s_i s_end : State) h path :
  Inj (=) (=) tmpnam ->
  OrkObjectDisplay_new files ~~> s_i -> s_i ~~> s_end ->
  mesh_files_ s_i !! h = Some path ->
  count_occ Event_eq_dec (trace (OrkObjectDisplay_delete s_end))
    (EvRemove path) = 1 /\
  fs (OrkObjectDisplay_delete s_end) !! path = None.
Proof.
  intros Hinj Hi Hend Hh.
  assert (registry_wf tmpnam s_i) as Hwf_i
    by (eapply later_registry_wf; [done..|apply registry_wf_new]).
  assert (registry_wf tmpnam s_end) as (Hnames & Hshare & Hrm)
    by (by eapply later_registry_wf).
  assert (mesh_files_ s_end !! h = Some path) as Hh_end
    by (by eapply later_keeps_path).
  destruct (entries_paths (mesh_files_ s_end) Hshare) as (Hnodup & Hin).
  specialize (Hin h path Hh_end).
  unfold OrkObjectDisplay_delete.
  destruct (remove_files_spec (entries (mesh_files_ s_end)) s_end)
    as (Ht & Hgone & _).
  split; [|by apply Hgone].
  rewrite Ht, count_occ_app.
  replace (count_occ Event_eq_dec (trace s_end) (EvRemove path)) with 0.
  - simpl. apply NoDup_count_occ'.
    + assert (Inj (=) (=) EvRemove) by (by intros ?? [=]).
      by apply NoDup_ListNoDup, (NoDup_fmap_2 EvRemove).
    + apply list_elem_of_In, list_elem_of_fmap. eauto.
  - symmetry. apply count_occ_not_In. rewrite <- list_elem_of_In. apply Hrm.
Qed.

(** The URI is put in the cache before the mesh loader is tried (line 157
    precedes line 158) and is not taken out when the loader fails: on a
    cache miss that resolves to a URI the loader rejects, [processMessage]
    returns with the URI cached under the object's hash, and it stays
    cached from then on. *)
Lemma rejected_uri_stays_cached env object s u :
  mesh_resources_ s !! object_hash object = None ->
  (fetch_mesh tmpnam env object s).1 = u -> u <> "" ->
  loadMeshFromResource env u = false ->
  (process_object tmpnam env object s).1 = Return /\
  forall s', (process_object tmpnam env object s).2 ~~> s' ->
    mesh_resources_ s' !! object_hash object = Some u.
Proof.
  intros Hmiss Hfetch Hu Hload.
  destruct (rejected_uri_returns env object s u) as (s1 & Hr & ->);
    [done..|].
  split; [done|]. intros s' Hs'. simpl in Hs'.
  eapply later_keeps; [exact Hs'|]. by eapply resolve_mesh_cached.
Qed.


(** * Further properties of the display *)

(** ** reset and the empty message *)

Lemma clear_visuals_idemp s : clear_visuals (clear_visuals s) = clear_visuals s.
Proof. done. Qed.

(** [reset] only drops the visuals; a message processed after a [reset]
    ends in the very state it would have ended in without the [reset],
    and a message without objects does what [reset] does. *)
Theorem reset_before_message env msg s :
  processMessage tmpnam env msg (reset s) = processMessage tmpnam env msg s /\
  processMessage tmpnam env {| objects := [] |} s = reset s /\
  mesh_resources_ (reset s) = mesh_resources_ s /\
  mesh_files_ (reset s) = mesh_files_ s /\
  fs (reset s) = fs s /\ trace (reset s) = trace s /\
  visuals_ (reset s) = [] /\
  forall id, id ∈ visuals_ s -> visual_heap (reset s) !! id = None.
Proof.
  unfold processMessage, reset. rewrite clear_visuals_idemp.
  repeat (split; [done|]). intros id Hid. simpl.
  by apply lookup_foldr_delete_elem.
Qed.

(** ** The cache key *)

Lemma string_app_inj_length (a b x y : string) :
  String.length a = String.length b -> a +:+ x = b +:+ y -> a = b /\ x = y.
Proof.
  revert b. induction a as [|c a IH]; intros [|d b] Hlen H; simpl in *;
    try done.
  injection H as -> H. destruct (IH b) as [-> ->]; [lia | done | done].
Qed.

(** Two object types whose database strings have the same length, and so
    two object types of one database, have the same cache key only when
    they are the same type. *)
Theorem object_hash_inj_same_length (o1 o2 : RecognizedObject) :
  String.length (db (type o1)) = String.length (db (type o2)) ->
  object_hash o1 = object_hash o2 -> type o1 = type o2.
Proof.
  unfold object_hash. destruct (type o1) as [d1 k1], (type o2) as [d2 k2].
  simpl. intros Hlen H.
  by destruct (string_app_inj_length d1 d2 k1 k2 Hlen H) as [-> ->].
Qed.

(** ** The destructor *)


(** ** Objects without a mesh *)

(** The backend is asked through one call that depends on the database
    of the object only. *)
Lemma get_db_log env object :
  exists e, is_backend_call e = true /\
    forall s, get_db env object s = (backend env object, log e s).
Proof.
  unfold get_db, backend.
  destruct (db_params_type env _); eexists; (split; [|done]); done.
Qed.

(** Without an attachment to save, fetching the mesh is the backend call
    and the metadata query, nothing else. *)
Lemma fetch_mesh_no_file env object u :
  (let info := default ObjectInfo_default
                 (ObjectInfo_new env (key (type object)) (backend env object)) in
   mesh_uri info = Some u \/ (mesh_uri info = None /\ mesh info = None /\ u = "")) ->
  exists e, is_backend_call e = true /\
    forall s, fetch_mesh tmpnam env object s =
              (u, log (EvObjectInfo (key (type object))) (log e s)).
Proof.
  intros Hinfo. destruct (get_db_log env object) as (e & He & Hdb).
  exists e. split; [done|]. intros s. unfold fetch_mesh, get_object_info.
  rewrite Hdb. cbv zeta in Hinfo.
  destruct Hinfo as [->|(-> & -> & ->)]; done.
Qed.

(** The turn of an object for which the backend gives no usable mesh:
    nothing is cached, no file is written, the loader is not asked; the
    visual is given the object with an empty mesh, and the transform
    lookup decides the rest. *)
Lemma process_object_without_mesh env object s :
  mesh_resources_ s !! object_hash object = None ->
  (let info := default ObjectInfo_default
                 (ObjectInfo_new env (key (type object)) (backend env object)) in
   mesh_uri info = Some "" \/ (mesh_uri info = None /\ mesh info = None)) ->
  let r := process_object tmpnam env object s in
  let id := next_visual s in
  mesh_resources_ r.2 = mesh_resources_ s /\
  mesh_files_ r.2 = mesh_files_ s /\ fs r.2 = fs s /\
  tmpnam_calls r.2 = tmpnam_calls s /\
  visuals_ r.2 = visuals_ s ++ [id] /\ next_visual r.2 = S id /\
  (exists e, is_backend_call e = true /\
     trace r.2 =
       trace s ++ [EvNewVisual id; e; EvObjectInfo (key (type object));
                   EvGetTransform (frame_id (header object))
                                  (stamp (header object))]) /\
  match getTransform env (frame_id (header object)) (stamp (header object)) with
  | Some (position, orientation) =>
      r.1 = Continue /\
      visual_heap r.2 !! id =
        Some {| vis_message := Some (object, "");
                vis_position := Some position;
                vis_orientation := Some orientation |}
  | None =>
      r.1 = Return /\
      visual_heap r.2 !! id =
        Some {| vis_message := Some (object, "");
                vis_position := None; vis_orientation := None |}
  end.
Proof.
  intros Hmiss Hinfo r id.
  destruct (fetch_mesh_no_file env object "") as (e & He & Hfetch).
  { cbv zeta in *. destruct Hinfo as [?|[? ?]]; auto. }
  subst r id. unfold process_object, push_new_visual, resolve_mesh.
  cbn [mesh_resources_]. rewrite Hmiss, Hfetch.
  rewrite decide_True by done.
  destruct (getTransform env _ _) as [[position orientation]|]; cbn;
    rewrite ?lookup_alter_eq, lookup_insert_eq, <- !(assoc_L (++)); cbn;
    repeat (split; [done|]); (split; [by exists e|done]).
Qed.

(** An object whose metadata has neither a [mesh_uri] field nor a [mesh]
    attachment still gets its visual, with an empty mesh; nothing is
    cached for it, no file is written and the mesh loader is not asked. *)
Theorem object_without_mesh_is_displayed env object s :
  mesh_resources_ s !! object_hash object = None ->
  ObjectInfo_new env (key (type object)) (backend env object) =
    Some {| mesh_uri := None; mesh := None |} ->
  let r := process_object tmpnam env object s in
  let id := next_visual s in
  mesh_resources_ r.2 = mesh_resources_ s /\
  mesh_files_ r.2 = mesh_files_ s /\ fs r.2 = fs s /\
  visuals_ r.2 = visuals_ s ++ [id] /\
  (exists e, is_backend_call e = true /\
     trace r.2 =
       trace s ++ [EvNewVisual id; e; EvObjectInfo (key (type object));
                   EvGetTransform (frame_id (header object))
                                  (stamp (header object))]) /\
  exists v, visual_heap r.2 !! id = Some v /\
    vis_message v = Some (object, "") /\
    (r.1 = Continue <->
     is_Some (getTransform env (frame_id (header object))
                               (stamp (header object)))).
Proof.
  intros Hmiss Hinfo.
  destruct (process_object_without_mesh env object s Hmiss)
    as (Hr & Hf & Hfs & _ & Hv & _ & Ht & Hpose).
  { rewrite Hinfo. by right. }
  repeat (split; [done|]).
  destruct (getTransform env _ _) as [[position orientation]|];
    destruct Hpose as [-> ->]; eexists; (split; [done|]); (split; [done|]).
  - split; [by eexists | done].
  - split; [done | by intros [? ?]].
Qed.

(** A [mesh_uri] field that holds the empty string counts as no mesh,
    whatever attachment the object has: the attachment is not saved, the
    visual gets an empty mesh and nothing is cached, so the backend is
    asked again at the next detection of the object. *)
Theorem empty_mesh_uri_is_no_mesh env object s attachment :
  mesh_resources_ s !! object_hash object = None ->
  ObjectInfo_new env (key (type object)) (backend env object) =
    Some {| mesh_uri := Some ""; mesh := attachment |} ->
  let r := process_object tmpnam env object s in
  mesh_resources_ r.2 !! object_hash object = None /\
  mesh_files_ r.2 = mesh_files_ s /\ fs r.2 = fs s /\
  tmpnam_calls r.2 = tmpnam_calls s /\
  exists v, visual_heap r.2 !! next_visual s = Some v /\
    vis_message v = Some (object, "").
Proof.
  intros Hmiss Hinfo.
  destruct (process_object_without_mesh env object s Hmiss)
    as (Hr & Hf & Hfs & Hc & _ & _ & _ & Hpose).
  { rewrite Hinfo. by left. }
  cbv zeta. rewrite Hr. repeat (split; [done|]).
  destruct (getTransform env _ _) as [[position orientation]|];
    destruct Hpose as [_ ->]; by eexists.
Qed.

(** A resolution failure does not stop the batch.  When the loop reaches
    a detection whose plugin does not load or whose metadata cannot be
    built, and the transform of the detection is known, the detection
    gets a visual with an empty mesh at its pose and the loop goes on
    with the detections that follow. *)
Theorem resolution_failure_continues_batch env pre object post s s_i :
  process_objects tmpnam env pre (clear_visuals s) = (Continue, s_i) ->
  mesh_resources_ s_i !! object_hash object = None ->
  MetadataUnavailable env object \/
    (PluginLoadFailure env object /\ needs_backend env) ->
  is_Some (getTransform env (frame_id (header object))
                            (stamp (header object))) ->
  let r := process_object tmpnam env object s_i in
  r.1 = Continue /\
  processMessage tmpnam env {| objects := pre ++ object :: post |} s =
    (process_objects tmpnam env post r.2).2 /\
  exists position orientation,
    visual_heap r.2 !! next_visual s_i =
      Some {| vis_message := Some (object, "");
              vis_position := Some position;
              vis_orientation := Some orientation |}.
Proof.
  intros Hpre Hmiss Hfail [[position orientation] Ht] r.
  assert (MetadataUnavailable env object) as Hmeta.
  { destruct Hfail as [|[]]; [done | by apply plugin_failure_no_metadata]. }
  destruct (process_object_without_mesh env object s_i Hmiss)
    as (_ & _ & _ & _ & _ & _ & _ & Hpose).
  { unfold MetadataUnavailable in Hmeta. rewrite Hmeta. by right. }
  rewrite Ht in Hpose. destruct Hpose as [Hflow Hheap]. fold r in Hflow, Hheap.
  split; [done|]. split; [|eauto].
  unfold processMessage. cbn [objects].
  rewrite process_objects_app, Hpre. simpl. fold r.
  destruct r as [fl s1]. simpl in Hflow. by subst fl.
Qed.

(** ** The mesh URI of the metadata *)

(** A non-empty [mesh_uri] field is used as it is, whatever attachment
    the object has: the attachment is not saved to a file, [tmpnam] is
    not called, and the URI is cached and handed to the mesh loader. *)
Theorem mesh_uri_field_preferred env object s u attachment :
  mesh_resources_ s !! object_hash object = None ->
  ObjectInfo_new env (key (type object)) (backend env object) =
    Some {| mesh_uri := Some u; mesh := attachment |} ->
  u <> "" ->
  let q := resolve_mesh tmpnam env object s in
  q.1.2 = u /\
  (q.1.1 = Continue <-> loadMeshFromResource env u = true) /\
  mesh_resources_ q.2 = <[object_hash object := u]> (mesh_resources_ s) /\
  mesh_files_ q.2 = mesh_files_ s /\ fs q.2 = fs s /\
  tmpnam_calls q.2 = tmpnam_calls s /\
  exists e, is_backend_call e = true /\
    trace q.2 = trace s ++ [e; EvObjectInfo (key (type object)); EvLoadMesh u].
Proof.
  intros Hmiss Hinfo Hu q.
  destruct (fetch_mesh_no_file env object u) as (e & He & Hfetch).
  { rewrite Hinfo. by left. }
  subst q. unfold resolve_mesh. rewrite Hmiss, Hfetch.
  rewrite decide_False by done.
  destruct (loadMeshFromResource env u); cbn;
    rewrite <- !(assoc_L (++)); cbn;
    (split; [done|]); (split; [by split|]); repeat (split; [done|]);
    by exists e.
Qed.

(** ** Whole batches *)

Lemma process_objects_all_displayed env objs s :
  (forall u, loadMeshFromResource env u = true) ->
  (forall o, o ∈ objs ->
     is_Some (getTransform env (frame_id (header o)) (stamp (header o)))) ->
  let r := process_objects tmpnam env objs s in
  r.1 = Continue /\
  visuals_ r.2 = visuals_ s ++ seq (next_visual s) (length objs) /\
  forall i o, objs !! i = Some o ->
    exists u position orientation,
      getTransform env (frame_id (header o)) (stamp (header o))
        = Some (position, orientation) /\
      visual_heap r.2 !! (next_visual s + i) =
        Some {| vis_message := Some (o, u);
                vis_position := Some position;
                vis_orientation := Some orientation |}.
Proof.
  intros Hload. revert s.
  induction objs as [|object rest IH]; intros s Hts; simpl.
  { rewrite app_nil_r. split; [done|]. split; [done|]. by intros i o ?. }
  pose proof (process_object_visual env object s)
    as (Hv & Hn & _ & v & Hheap & Hcase).
  destruct (process_object tmpnam env object s) as [[] s1]; simpl in *.
  - destruct Hcase as (u & position & orientation & Ht & ->).
    destruct (IH s1) as (Hflow & Hv' & Hall).
    { intros o Ho. apply Hts. by right. }
    destruct (process_objects_visuals env rest s1) as (_ & _ & _ & _ & _ & Hframe).
    split; [done|]. split.
    { rewrite Hv', Hv, Hn, <- (assoc_L (++)). done. }
    intros [|i] o Hi; simpl in Hi.
    + injection Hi as <-. exists u, position, orientation. split; [done|].
      rewrite Nat.add_0_r, Hframe by lia. done.
    + destruct (Hall i o Hi) as (u' & p' & q' & Ht' & Hh').
      exists u', p', q'. split; [done|].
      rewrite Hn in Hh'. by replace (next_visual s + S i) with (S (next_visual s) + i) by lia.
  - exfalso. destruct (Hts object) as [pq Hpq]; [left|].
    destruct Hcase as (_ & _ & [(_ & u & _ & Hu)|(u & _ & Hu)]).
    + rewrite Hload in Hu. done.
    + congruence.
Qed.

(** When no mesh fails to load and the transform of every detection of
    the message is known, the set of visuals after [processMessage] has
    one visual per detection, in the order of the message, and each
    visual holds its detection and the pose the frame manager gave for
    it. *)
Theorem every_detection_displayed env msg s :
  (forall u, loadMeshFromResource env u = true) ->
  (forall o, o ∈ objects msg ->
     is_Some (getTransform env (frame_id (header o)) (stamp (header o)))) ->
  let s' := processMessage tmpnam env msg s in
  visuals_ s' = seq (next_visual s) (length (objects msg)) /\
  forall i o, objects msg !! i = Some o ->
    exists u position orientation,
      getTransform env (frame_id (header o)) (stamp (header o))
        = Some (position, orientation) /\
      visual_heap s' !! (next_visual s + i) =
        Some {| vis_message := Some (o, u);
                vis_position := Some position;
                vis_orientation := Some orientation |}.
Proof.
  intros Hload Hts.
  destruct (process_objects_all_displayed env (objects msg) (clear_visuals s)
              Hload Hts) as (_ & Hv & Hall).
  split; [exact Hv | exact Hall].
Qed.

(** A transform that is not available ends the message, wherever the
    detection stands in the batch: the final state is the one right after
    the turn of that detection, the detections that follow are not
    processed, and the last visual of the set is the one of the failing
    detection, without position or orientation. *)
Theorem transform_failure_abandons_batch env pre object post s s_i :
  process_objects tmpnam env pre (clear_visuals s) = (Continue, s_i) ->
  getTransform env (frame_id (header object)) (stamp (header object)) = None ->
  let s' := processMessage tmpnam env {| objects := pre ++ object :: post |} s in
  s' = (process_object tmpnam env object s_i).2 /\
  s' = processMessage tmpnam env {| objects := pre ++ [object] |} s /\
  visuals_ s' = visuals_ s_i ++ [next_visual s_i] /\
  length (visuals_ s') = S (length pre) /\
  exists v, visual_heap s' !! next_visual s_i = Some v /\
    vis_position v = None /\ vis_orientation v = None.
Proof.
  intros Hpre Ht. unfold processMessage. cbn [objects].
  rewrite !process_objects_app, Hpre. simpl.
  pose proof (process_object_visual env object s_i)
    as (Hv & _ & _ & v & Hheap & Hcase).
  destruct (process_objects_visuals env pre (clear_visuals s))
    as (n & _ & Hn & Hv0 & _).
  rewrite Hpre in Hn, Hv0. simpl in Hn, Hv0.
  destruct (process_object tmpnam env object s_i) as [[] s1]; simpl in *.
  { destruct Hcase as (? & ? & ? & Hsome & _). congruence. }
  split; [done|]. split; [done|]. split; [done|]. split.
  { rewrite Hv, Hv0, Hn by done. rewrite length_app, length_seq. simpl. lia. }
  exists v. split; [done|]. tauto.
Qed.

(** ** The visuals and the heap *)

Lemma lookup_foldr_delete (heap : gmap nat (OrkObjectVisual Vector3 Quaternion))
    (ids : list nat) (id : nat) :
  heap !! id = None -> foldr delete heap ids !! id = None.
Proof.
  intros Hnone. induction ids as [|i ids IH]; simpl; [done|].
  destruct (decide (i = id)) as [->|]; [apply lookup_delete_eq|].
  by rewrite lookup_delete_ne.
Qed.

(** All through the life of a display, [visuals_] refers to each live
    visual exactly once and to nothing else: no reference is dangling or
    repeated, and no visual outlives its reference. *)
Theorem visuals_are_the_live_objects files s :
  OrkObjectDisplay_new files ~~> s ->
  NoDup (visuals_ s) /\
  forall id, id ∈ visuals_ s <-> is_Some (visual_heap s !! id).
Proof.
  intros Hlife. pose proof (later_visuals_allocated files s Hlife) as Halloc.
  revert Halloc.
  induction Hlife as [| s' H IH | s' H IH | env object s' H IH
                      | id' f s' H IH | frame t s' H IH]; intros Halloc.
  - split; [constructor|]. intros id. simpl. rewrite lookup_empty.
    split; [by intros ?%elem_of_nil | by intros [? ?]].
  - pose proof (later_visuals_allocated files s' H) as Halloc'.
    destruct (IH Halloc') as (_ & Hlive).
    split; [constructor|]. intros id. simpl.
    split; [by intros ?%elem_of_nil|]. intros Hsome. exfalso.
    destruct (decide (id ∈ visuals_ s')) as [Hin|Hout].
    + rewrite lookup_foldr_delete_elem in Hsome by done. by destruct Hsome.
    + rewrite lookup_foldr_delete in Hsome; [by destruct Hsome|].
      apply eq_None_not_Some. by rewrite <- Hlive.
  - pose proof (later_visuals_allocated files s' H) as Halloc'.
    destruct (IH Halloc') as (Hnodup & Hlive). simpl. split.
    + apply NoDup_app. split; [done|]. split; [|apply NoDup_singleton].
      intros id Hid ->%list_elem_of_singleton. apply Halloc' in Hid. lia.
    + intros id. rewrite elem_of_app, list_elem_of_singleton,
        lookup_insert_is_Some, <- Hlive.
      split.
      * intros [Hid| ->]; [|by left].
        destruct (decide (next_visual s' = id)); auto.
      * intros [<-|[_ Hid]]; auto.
  - pose proof (later_visuals_allocated files s' H) as Halloc'.
    destruct (resolve_mesh_visuals env object s') as (-> & -> & _).
    by apply IH.
  - pose proof (later_visuals_allocated files s' H) as Halloc'.
    destruct (IH Halloc') as (Hnodup & Hlive). simpl. split; [done|].
    intros id. rewrite Hlive, lookup_alter_is_Some. done.
  - pose proof (later_visuals_allocated files s' H) as Halloc'.
    by apply IH.
Qed.

(** ** The temporary files and the cache *)

(** What one resolution does to the files: nothing, or, on a cache miss,
    one file named by the next name of [tmpnam], recorded and cached
    under the hash of the object. *)
Lemma resolve_mesh_files env object s :
  let q := (resolve_mesh tmpnam env object s).2 in
  let file_name := tmpnam (tmpnam_calls s) +:+ ".stl" in
  (mesh_files_ q = mesh_files_ s /\ fs q = fs s /\
   tmpnam_calls q = tmpnam_calls s) \/
  (mesh_resources_ s !! object_hash object = None /\
   mesh_files_ q = <[object_hash object := file_name]> (mesh_files_ s) /\
   tmpnam_calls q = S (tmpnam_calls s) /\
   mesh_resources_ q =
     <[object_hash object := "file://" +:+ file_name]> (mesh_resources_ s) /\
   exists blob, fs q = <[file_name := blob]> (fs s)).
Proof.
  cbv zeta. unfold resolve_mesh.
  destruct (mesh_resources_ s !! object_hash object) eqn:Hmiss; [by left|].
  destruct (get_db_log env object) as (e & _ & Hdb).
  unfold fetch_mesh, get_object_info. rewrite Hdb.
  destruct (mesh_uri _) as [u|].
  { destruct (decide (u = "")); [by left|].
    destruct (loadMeshFromResource env u); by left. }
  destruct (mesh _) as [blob|]; [|by left].
  unfold next_tmpnam. cbn [tmpnam_calls log].
  rewrite decide_False by done.
  right. split; [done|].
  destruct (loadMeshFromResource env _); cbn -[String.append];
    repeat (split; [done|]); by exists blob.
Qed.

Lemma later_registry_consistent files s :
  OrkObjectDisplay_new files ~~> s ->
  (forall h path, mesh_files_ s !! h = Some path ->
     mesh_resources_ s !! h = Some ("file://" +:+ path) /\
     is_Some (fs s !! path) /\
     exists n, n < tmpnam_calls s /\ path = tmpnam n +:+ ".stl") /\
  size (mesh_files_ s) = tmpnam_calls s.
Proof.
  induction 1 as [| s' H IH | s' H IH | env object s' H IH
                  | id' f s' H IH | frame t s' H IH]; try exact IH.
  - simpl. split; [|done]. intros h path Hh. by rewrite lookup_empty in Hh.
  - destruct IH as (Hreg & Hsize).
    destruct (resolve_mesh_files env object s')
      as [(Hf & Hfs & Hc)|(Hmiss & Hf & Hc & Hr & blob & Hfs)].
    + rewrite Hf, Hfs, Hc. split; [|done]. intros h path Hh.
      destruct (Hreg h path Hh) as (Hres & Hfile & Hname).
      split; [by apply resolve_mesh_keeps | done].
    + assert (mesh_files_ s' !! object_hash object = None) as Hnew.
      { destruct (mesh_files_ s' !! object_hash object) as [p|] eqn:Hp;
          [|done].
        destruct (Hreg _ _ Hp) as (Hres & _). congruence. }
      rewrite Hf, Hfs, Hc, Hr. split.
      * intros h path [[<- <-]|[Hne Hh]]%lookup_insert_Some.
        -- rewrite !lookup_insert_eq. split; [done|]. split; [done|].
           exists (tmpnam_calls s'). auto with lia.
        -- destruct (Hreg h path Hh) as (Hres & Hfile & n & Hn & ->).
           rewrite lookup_insert_ne by done. split; [done|].
           split; [apply lookup_insert_is_Some'; by right|].
           exists n. auto with lia.
      * rewrite map_size_insert_None by done. by rewrite Hsize.
Qed.

(** All through the life of a display, an entry of [mesh_files_] goes
    with the cache entry of the same key, which is [file://] followed by
    the recorded path; the path is a name [tmpnam] gave, with [.stl]
    appended, and the file is there. *)
Theorem registry_matches_cache files s h path :
  OrkObjectDisplay_new files ~~> s ->
  mesh_files_ s !! h = Some path ->
  mesh_resources_ s !! h = Some ("file://" +:+ path) /\
  is_Some (fs s !! path) /\
  exists n, n < tmpnam_calls s /\ path = tmpnam n +:+ ".stl".
Proof. intros Hlife Hh. by apply (later_registry_consistent files s Hlife). Qed.

(** All through the life of a display, [mesh_files_] has one entry per
    call made to [tmpnam]: every temporary file is recorded under a key
    of its own, none is recorded twice or lost, so the destructor removes
    as many files as were created. *)
Theorem one_entry_per_temporary_file files s :
  OrkObjectDisplay_new files ~~> s ->
  size (mesh_files_ s) = tmpnam_calls s /\
  length (drop (length (trace s)) (trace (OrkObjectDisplay_delete s)))
    = tmpnam_calls s.
Proof.
  intros Hlife.
  destruct (later_registry_consistent files s Hlife) as (_ & Hsize).
  split; [done|]. rewrite <- Hsize. unfold OrkObjectDisplay_delete.
  destruct (remove_files_spec (entries (mesh_files_ s)) s) as (-> & _).
  rewrite drop_app_length, !length_fmap. unfold entries.
  rewrite merge_sort_Permutation. apply length_map_to_list.
Qed.

(** ** How often the backend is asked *)

Lemma fetch_mesh_uri_calls env object s1 s2 :
  tmpnam_calls s1 = tmpnam_calls s2 ->
  (fetch_mesh tmpnam env object s1).1 = (fetch_mesh tmpnam env object s2).1.
Proof.
  intros Hc. destruct (get_db_log env object) as (e & _ & Hdb).
  unfold fetch_mesh, get_object_info. rewrite !Hdb.
  destruct (mesh_uri _); [done|]. destruct (mesh _); [|done].
  unfold next_tmpnam. cbn. by rewrite Hc.
Qed.

(** A turn asks the backend what its resolution asks. *)
Lemma process_object_backend_calls env object s :
  filter is_backend_call (trace (process_object tmpnam env object s).2) =
  filter is_backend_call
    (trace (resolve_mesh tmpnam env object (push_new_visual s).2).2).
Proof.
  unfold process_object.
  destruct (push_new_visual s) as [visual s0]. cbn [snd].
  destruct (resolve_mesh tmpnam env object s0) as [[[] u] s1]; [|done].
  destruct (getTransform env _ _) as [[position orientation]|]; cbn;
    by rewrite filter_app, app_nil_r.
Qed.

Lemma resolve_mesh_miss_backend_calls env object s e :
  (forall s0, get_db env object s0 = (backend env object, log e s0)) ->
  is_backend_call e = true ->
  mesh_resources_ s !! object_hash object = None ->
  filter is_backend_call (trace (resolve_mesh tmpnam env object s).2) =
  filter is_backend_call (trace s) ++ [e; EvObjectInfo (key (type object))].
Proof.
  intros Hdb He Hmiss. unfold resolve_mesh. rewrite Hmiss.
  unfold fetch_mesh, get_object_info. rewrite Hdb.
  assert (filter is_backend_call
            (trace (log (EvObjectInfo (key (type object))) (log e s))) =
          filter is_backend_call (trace s) ++
            [e; EvObjectInfo (key (type object))]) as Hbase.
  { cbn [trace log]. rewrite !filter_app, <- (assoc_L (++)).
    rewrite (filter_cons_True _ e) by (by rewrite He). done. }
  destruct (mesh_uri _) as [u|].
  { destruct (decide (u = "")); [done|].
    destruct (loadMeshFromResource env u); cbn [snd];
      cbn [trace log set_mesh_resource];
      by rewrite filter_app, app_nil_r. }
  destruct (mesh _) as [blob|]; [|by rewrite decide_True].
  unfold next_tmpnam. rewrite decide_False by done.
  destruct (loadMeshFromResource env _); cbn [snd];
    cbn [trace log set_mesh_resource set_mesh_file write_file];
    rewrite !filter_app, !app_nil_r;
    cbn [trace log] in Hbase; rewrite !filter_app in Hbase; exact Hbase.
Qed.

Lemma resolve_mesh_miss_uri env object s :
  mesh_resources_ s !! object_hash object = None ->
  (resolve_mesh tmpnam env object s).1.2 = (fetch_mesh tmpnam env object s).1.
Proof.
  intros Hmiss. unfold resolve_mesh. rewrite Hmiss.
  destruct (fetch_mesh tmpnam env object s) as [u s1]. cbn [fst].
  destruct (decide (u = "")); [done|].
  by destruct (loadMeshFromResource env u).
Qed.

Lemma get_db_same_type env o object s :
  type o = type object -> get_db env o s = get_db env object s.
Proof. intros Ht. unfold get_db. by rewrite Ht. Qed.

Lemma process_objects_hits env objs s h u :
  mesh_resources_ s !! h = Some u ->
  (forall o, o ∈ objs -> object_hash o = h) ->
  filter is_backend_call (trace (process_objects tmpnam env objs s).2) =
  filter is_backend_call (trace s).
Proof.
  revert s. induction objs as [|object rest IH]; intros s Hu Hobjs; simpl;
    [done|].
  assert (object_hash object = h) as Hh by (apply Hobjs; left).
  pose proof (process_object_backend_calls env object s) as Hcalls.
  pose proof (process_object_resolve env object s) as (Hres & _).
  rewrite (resolve_mesh_hit env object (push_new_visual s).2 u) in Hcalls, Hres
    by (by rewrite Hh).
  cbn [snd push_new_visual trace mesh_resources_] in Hcalls, Hres.
  rewrite filter_app, app_nil_r in Hcalls.
  destruct (process_object tmpnam env object s) as [[] s1];
    cbn [fst snd] in *; [|exact Hcalls].
  rewrite IH; [exact Hcalls | by rewrite Hres |].
  intros o Ho. apply Hobjs. by right.
Qed.

(** A batch of detections that are all of one object type, for which the
    backend gives a mesh, asks the backend once: the backend call and the
    metadata query of the first detection are the only ones of the
    message, however the message ends. *)
Theorem one_backend_query_per_object_type env object rest s :
  mesh_resources_ s !! object_hash object = None ->
  (fetch_mesh tmpnam env object s).1 <> "" ->
  (forall o, o ∈ rest -> type o = type object) ->
  exists e, is_backend_call e = true /\
    filter is_backend_call
      (trace (processMessage tmpnam env {| objects := object :: rest |} s)) =
    filter is_backend_call (trace s) ++ [e; EvObjectInfo (key (type object))].
Proof.
  intros Hmiss Hfetch Hrest.
  destruct (get_db_log env object) as (e & He & Hdb).
  exists e. split; [done|]. unfold processMessage. cbn [objects].
  set (s0 := clear_visuals s). cbn [process_objects].
  pose proof (process_object_backend_calls env object s0) as Hcalls.
  pose proof (process_object_resolve env object s0) as (Hres & _).
  rewrite (resolve_mesh_miss_backend_calls env object _ e Hdb He) in Hcalls
    by done.
  cbn [snd push_new_visual trace] in Hcalls.
  rewrite filter_app, app_nil_r in Hcalls.
  change (trace s0) with (trace s) in Hcalls.
  assert (exists u, mesh_resources_
            (resolve_mesh tmpnam env object (push_new_visual s0).2).2
            !! object_hash object = Some u) as [u Hu].
  { destruct (resolve_mesh tmpnam env object (push_new_visual s0).2)
      as [[fl u] s1] eqn:Hr.
    exists u. eapply resolve_mesh_cached; [exact Hr|].
    assert (u = (fetch_mesh tmpnam env object (push_new_visual s0).2).1) as ->.
    { rewrite <- resolve_mesh_miss_uri by done. by rewrite Hr. }
    by rewrite (fetch_mesh_uri_calls env object _ s). }
  rewrite <- Hres in Hu.
  destruct (process_object tmpnam env object s0) as [[] s1];
    cbn [fst snd] in *; [|exact Hcalls].
  rewrite (process_objects_hits env rest s1 (object_hash object) u Hu);
    [exact Hcalls|].
  intros o Ho. unfold object_hash. by rewrite (Hrest o Ho).
Qed.

(** A batch of detections that are all of one object type, for which the
    plugin does not load or the metadata cannot be built, asks the backend
    once per detection: a failure is not remembered from one detection to
    the next, not even inside a message. *)
Theorem failed_resolution_retried_each_time env object objs s :
  mesh_resources_ s !! object_hash object = None ->
  MetadataUnavailable env object \/
    (PluginLoadFailure env object /\ needs_backend env) ->
  (forall o, o ∈ objs ->
     type o = type object /\
     is_Some (getTransform env (frame_id (header o)) (stamp (header o)))) ->
  exists e, is_backend_call e = true /\
    filter is_backend_call
      (trace (processMessage tmpnam env {| objects := objs |} s)) =
    filter is_backend_call (trace s) ++
      mjoin (replicate (length objs) [e; EvObjectInfo (key (type object))]).
Proof.
  intros Hmiss Hfail Hobjs.
  assert (MetadataUnavailable env object) as Hmeta.
  { destruct Hfail as [|[]]; [done | by apply plugin_failure_no_metadata]. }
  destruct (get_db_log env object) as (e & He & Hdb).
  exists e. split; [done|]. unfold processMessage. cbn [objects].
  assert (mesh_resources_ (clear_visuals s) !! object_hash object = None)
    as Hmiss0 by done.
  change (trace s) with (trace (clear_visuals s)).
  generalize dependent (clear_visuals s). clear Hmiss s.
  induction objs as [|o rest IH]; intros s Hmiss; simpl.
  { by rewrite app_nil_r. }
  destruct (Hobjs o) as (Hty & [[position orientation] Ht]); [left|].
  assert (object_hash o = object_hash object) as Hh
    by (unfold object_hash; by rewrite Hty).
  pose proof (process_object_backend_calls env o s) as Hcalls.
  rewrite (resolve_mesh_miss_backend_calls env o _ e) in Hcalls;
    [|intros s0; rewrite (get_db_same_type env o object) by done;
      rewrite Hdb; unfold backend; by rewrite Hty
     |done | by rewrite Hh].
  cbn [snd push_new_visual trace] in Hcalls.
  rewrite filter_app, app_nil_r in Hcalls.
  destruct (process_object_without_mesh env o s) as (Hres & _ & _ & _ & _ & _ & _ & Hpose).
  { by rewrite Hh. }
  { unfold MetadataUnavailable, backend in Hmeta. unfold backend.
    rewrite Hty, Hmeta. by right. }
  rewrite Ht in Hpose. destruct Hpose as [Hflow _].
  destruct (process_object tmpnam env o s) as [fl s1]. cbn [fst snd] in *.
  subst fl. rewrite IH.
  - rewrite Hcalls, Hty, <- (assoc_L (++)). done.
  - intros o' Ho'. apply Hobjs. by right.
  - by rewrite Hres.
Qed.

End Properties.

(** * The properties on the scenarios *)

Import Scenario.

Lemma tmpnam_inj : Inj (=) (=) tmpnam.
Proof.
  intros n m H. unfold tmpnam in H.
  apply (inj (String.app "/tmp/file")) in H. by apply (inj pretty) in H.
Qed.

(** ** The cache key *)

(** C1 does not hold of the code: the cache key is the plain concatenation
    of the database and the object key (line 108), so the two distinct
    object types (db, 1x) and (db1, x) have the same hash.  In one message
    the second detection then finds the entry of the first: no backend is
    asked for it, and its visual is given the mesh of the other object,
    although its own metadata names another mesh. *)
Theorem object_hash_collision :
  type one <> type two /\
  object_hash one = object_hash two /\
  ObjectInfo_new env (key (type two)) (backend env two) =
    Some {| mesh_uri := Some "package://meshes/two.stl"; mesh := None |} /\
  let s' := processMessage tmpnam env {| objects := [one; two] |} start in
  mesh_resources_ s' = {[ "db1x" := "package://meshes/one.stl" ]} /\
  visual_heap s' !! 1 =
    Some {| vis_message := Some (two, "package://meshes/one.stl");
            vis_position := Some 7; vis_orientation := Some 9 |} /\
  filter is_backend_call (trace s') = [EvGenerateDb "db"; EvObjectInfo "1x"].
Proof. split; [discriminate|]. vm_compute. repeat split; reflexivity. Qed.

(** ** Failures inside a batch *)

(** C2 as the specification states it fails: with a second detection
    whose transform is not available, the final set holds two visuals,
    and the second one is the visual of the second detection. *)
Lemma transform_failure_counterexample :
  let s' := processMessage tmpnam env
              {| objects := [cup; cup_lost; can] |} start in
  is_Some (getTransform env (frame_id (header cup)) (stamp (header cup))) /\
  getTransform env (frame_id (header cup_lost)) (stamp (header cup_lost))
    = None /\
  visuals_ s' = [0; 1] /\
  visual_heap s' !! 1 =
    Some {| vis_message := Some (cup_lost, "package://meshes/cup.stl");
            vis_position := None; vis_orientation := None |}.
Proof. vm_compute. split; [by eexists|]. repeat split; reflexivity. Qed.

Lemma transform_failure_on_second_detection_witness :
  let s' := processMessage tmpnam env_loading
              {| objects := [cup; cup_lost; can] |} start in
  visuals_ s' !! 0 = Some 0 /\ visuals_ s' !! 2 = None /\
  visuals_ s' = [0; 1] /\
  (exists u2, visual_heap s' !! 1 =
     Some {| vis_message := Some (cup_lost, u2);
             vis_position := None; vis_orientation := None |}).
Proof.
  destruct (transform_failure_on_second_detection tmpnam env_loading
              cup cup_lost can start) as (H0 & H2 & Hload);
    [by eexists | reflexivity |].
  destruct Hload as (Hv & _ & H1); [reflexivity|]. auto.
Defined.

(** C4 as the specification states it fails: after a detection whose mesh
    does not load, the detection that follows is not processed.  The
    message ends as if it stopped at the failing detection, with one
    visual, whereas the same follower alone gets its visual posed. *)
Lemma mesh_load_failure_counterexample :
  loadMeshFromResource env (fetch_mesh tmpnam env bent start).1 = false /\
  processMessage tmpnam env {| objects := [bent; cup] |} start =
    processMessage tmpnam env {| objects := [bent] |} start /\
  visuals_ (processMessage tmpnam env {| objects := [bent; cup] |} start)
    = [0] /\
  (processMessage tmpnam env {| objects := [cup] |} start).(visual_heap) !! 0 =
    Some {| vis_message := Some (cup, "package://meshes/cup.stl");
            vis_position := Some 7; vis_orientation := Some 9 |}.
Proof. vm_compute. repeat split; reflexivity. Qed.

Lemma mesh_load_failure_abandons_batch_witness :
  let s' := processMessage tmpnam env {| objects := [cup; bent; can] |} start in
  s' = processMessage tmpnam env {| objects := [cup; bent] |} start /\
  length (visuals_ s') = 2.
Proof.
  destruct (mesh_load_failure_abandons_batch tmpnam env [cup] bent [can] start
              (process_objects tmpnam env [cup] (clear_visuals start)).2
              "package://meshes/bent.stl") as (_ & H1 & H2);
    [vm_compute; reflexivity | vm_compute; reflexivity
    | vm_compute; reflexivity | done | reflexivity |].
  split; [exact H1 | exact H2].
Defined.

Lemma visual_appended_before_resolution_witness :
  let s' := processMessage tmpnam env
              {| objects := [cup; cup_lost; can] |} start in
  visuals_ s' !! 1 = Some 1 /\
  exists v, visual_heap s' !! 1 = Some v /\
    visuals_ s' = [0; 1] /\ vis_position v = None /\ vis_orientation v = None.
Proof.
  destruct (visual_appended_before_resolution tmpnam env [cup] cup_lost [can]
              start (process_objects tmpnam env [cup] (clear_visuals start)).2)
    as (_ & H1 & v & Hv & Hret); [vm_compute; reflexivity|].
  split; [exact H1|]. exists v. split; [exact Hv|].
  apply Hret. vm_compute. reflexivity.
Defined.

Lemma visuals_of_latest_message_only_witness :
  let s := processMessage tmpnam env {| objects := [cup; can] |} start in
  let s' := processMessage tmpnam env {| objects := [can] |} s in
  visuals_ s = [0; 1] /\ visuals_ s' = [2] /\
  forall id, id ∈ visuals_ s ->
    (id ∉ visuals_ s') /\ visual_heap s' !! id = None.
Proof.
  intros s s'. split; [reflexivity|]. split; [reflexivity|].
  apply (visuals_of_latest_message_only tmpnam env {| objects := [can] |} s).
  intros id Hid. change (visuals_ s) with [0; 1] in Hid.
  change (next_visual s) with 2.
  repeat (apply elem_of_cons in Hid as [->|Hid]; [lia|]).
  by apply elem_of_nil in Hid.
Defined.

(** ** The cache and the temporary files *)

Lemma resolution_failure_not_cached_witness :
  let s1 := processMessage tmpnam env {| objects := [foreign; missing] |} start in
  let s_i := (process_objects tmpnam env [can] (clear_visuals s1)).2 in
  let s2 := processMessage tmpnam env
              {| objects := [can] ++ foreign :: [cup] |} s1 in
  mesh_resources_ s1 !! object_hash foreign = None /\
  exists e tr, is_backend_call e = true /\
    trace s2 =
      trace s_i ++ [EvNewVisual (next_visual s_i); e;
                    EvObjectInfo (key (type foreign))] ++ tr.
Proof.
  apply (resolution_failure_not_cached tmpnam env env
           {| objects := [foreign; missing] |} foreign [can] [cup] start).
  - reflexivity.
  - intros o Ho _. simpl in Ho.
    apply elem_of_cons in Ho as [->|Ho].
    + right. split; [split; reflexivity|]. intros k. reflexivity.
    + apply elem_of_cons in Ho as [->|Ho]; [|by apply elem_of_nil in Ho].
      left. reflexivity.
  - intros o Ho. apply elem_of_cons in Ho as [->|Ho];
      [discriminate | by apply elem_of_nil in Ho].
  - vm_compute. reflexivity.
Defined.

Lemma resolved_key_hits_cache_witness :
  let s1 := (resolve_mesh tmpnam env cup start).2 in
  let s2 := processMessage tmpnam env {| objects := [can; cup_lost] |} s1 in
  resolve_mesh tmpnam env cup_lost s2 =
    (Continue, "package://meshes/cup.stl", s2).
Proof.
  intros s1 s2.
  apply (resolved_key_hits_cache tmpnam env cup start Continue
           "package://meshes/cup.stl" s1 eq_refl);
    [done | apply processMessage_later | reflexivity].
Defined.

(** C3 does not hold of the code.  The cache is meant to hold the meshes
    already loaded (line 107), and a turn whose mesh does not load returns
    before the visual is given the URI (lines 158-163); but the URI was put
    in the cache just before (line 157) and stays there.  The next
    detection of the same object type is a cache hit: the loader is not
    asked, and the visual is given the URI that was rejected. *)
Theorem rejected_uri_served_from_cache :
  let s1 := processMessage tmpnam env {| objects := [bent] |} start in
  let s2 := processMessage tmpnam env {| objects := [bent] |} s1 in
  (fetch_mesh tmpnam env bent start).1 = "package://meshes/bent.stl" /\
  loadMeshFromResource env "package://meshes/bent.stl" = false /\
  mesh_resources_ s1 !! object_hash bent = Some "package://meshes/bent.stl" /\
  visual_heap s1 !! 0 =
    Some {| vis_message := None;
            vis_position := None; vis_orientation := None |} /\
  drop (length (trace s1)) (trace s2) =
    [EvNewVisual 1; EvGetTransform "camera" {| sec := 10; nsec := 0 |}] /\
  visual_heap s2 !! 1 =
    Some {| vis_message := Some (bent, "package://meshes/bent.stl");
            vis_position := Some 7; vis_orientation := Some 9 |}.
Proof. vm_compute. repeat split; reflexivity. Qed.

Lemma rejected_uri_stays_cached_witness :
  (process_object tmpnam env bent start).1 = Return /\
  forall s', later string tmpnam (process_object tmpnam env bent start).2 s' ->
    mesh_resources_ s' !! object_hash bent = Some "package://meshes/bent.stl".
Proof.
  apply (rejected_uri_stays_cached tmpnam env bent start
           "package://meshes/bent.stl");
    [reflexivity | reflexivity | done | reflexivity].
Defined.

Lemma attached_mesh_saved_once_witness :
  let q := resolve_mesh tmpnam env can start in
  q.1.2 = "file:///tmp/file0.stl" /\
  fs q.2 = {[ "/tmp/file0.stl" := "solid can" ]} /\
  mesh_files_ q.2 !! object_hash can = Some "/tmp/file0.stl" /\
  forall s2, later string tmpnam q.2 s2 ->
    resolve_mesh tmpnam env can s2 = (Continue, "file:///tmp/file0.stl", s2).
Proof.
  destruct (attached_mesh_saved_once tmpnam env can start "solid can")
    as (Hu & _ & Hfs & _ & Hfiles & _ & Hlater); [reflexivity..|].
  split; [exact Hu|]. split; [exact Hfs|].
  split; [by rewrite Hfiles|].
  intros s2 Hs2. by apply Hlater.
Defined.

Lemma teardown_removes_every_temp_file_witness :
  let s_i := processMessage tmpnam env {| objects := [can] |} start in
  let s_end := processMessage tmpnam env {| objects := [cup; bent] |} s_i in
  mesh_files_ s_i !! "storecan" = Some "/tmp/file0.stl" /\
  count_occ Event_eq_dec (trace (OrkObjectDisplay_delete s_end))
    (EvRemove "/tmp/file0.stl") = 1 /\
  fs (OrkObjectDisplay_delete s_end) !! "/tmp/file0.stl" = None.
Proof.
  intros s_i s_end. split; [reflexivity|].
  apply (teardown_removes_every_temp_file (ObjectDb:=string) tmpnam ∅
           s_i s_end "storecan" "/tmp/file0.stl" tmpnam_inj);
    [apply processMessage_later | apply processMessage_later | reflexivity].
Defined.

(** ** Further properties on the scenarios *)

Lemma object_hash_inj_same_length_witness : type cup = type cup_lost.
Proof.
  apply (object_hash_inj_same_length cup cup_lost); reflexivity.
Defined.

Lemma object_without_mesh_is_displayed_witness :
  let r := process_object tmpnam env ghost start in
  mesh_resources_ r.2 = ∅ /\
  exists v, visual_heap r.2 !! 0 = Some v /\ vis_message v = Some (ghost, "").
Proof.
  destruct (object_without_mesh_is_displayed tmpnam env ghost start)
    as (Hr & _ & _ & _ & _ & v & Hv & Hm & _); [reflexivity..|].
  split; [exact Hr|]. by exists v.
Defined.

Lemma empty_mesh_uri_is_no_mesh_witness :
  let r := process_object tmpnam Catalogue.env Catalogue.blank start in
  mesh_resources_ r.2 !! object_hash Catalogue.blank = None /\
  mesh_files_ r.2 = ∅ /\ fs r.2 = ∅.
Proof.
  destruct (empty_mesh_uri_is_no_mesh tmpnam Catalogue.env Catalogue.blank
              start (Some "solid blank"))
    as (Hr & Hf & Hfs & _); [reflexivity..|].
  split; [exact Hr|]. split; [exact Hf | exact Hfs].
Defined.

Lemma resolution_failure_continues_batch_witness :
  let s_i := (process_objects tmpnam env [cup] (clear_visuals start)).2 in
  let r := process_object tmpnam env missing s_i in
  r.1 = Continue /\
  processMessage tmpnam env {| objects := [cup] ++ missing :: [can] |} start =
    (process_objects tmpnam env [can] r.2).2.
Proof.
  destruct (resolution_failure_continues_batch tmpnam env [cup] missing [can]
              start (process_objects tmpnam env [cup] (clear_visuals start)).2)
    as (Hflow & Hrest & _);
    [vm_compute; reflexivity | vm_compute; reflexivity
    | left; reflexivity | by eexists |].
  split; [exact Hflow | exact Hrest].
Defined.

Lemma mesh_uri_field_preferred_witness :
  let q := resolve_mesh tmpnam Catalogue.env Catalogue.both start in
  q.1.2 = "package://meshes/both.stl" /\
  mesh_files_ q.2 = ∅ /\ fs q.2 = ∅ /\ tmpnam_calls q.2 = 0.
Proof.
  destruct (mesh_uri_field_preferred tmpnam Catalogue.env Catalogue.both start
              "package://meshes/both.stl" (Some "solid both"))
    as (Hu & _ & _ & Hf & Hfs & Hc & _); [reflexivity | reflexivity | done |].
  split; [exact Hu|]. split; [exact Hf|]. split; [exact Hfs | exact Hc].
Defined.

Lemma every_detection_displayed_witness :
  let s' := processMessage tmpnam env_loading
              {| objects := [cup; can; ghost] |} start in
  visuals_ s' = seq (next_visual start) 3.
Proof.
  destruct (every_detection_displayed tmpnam env_loading
              {| objects := [cup; can; ghost] |} start) as (Hv & _).
  - reflexivity.
  - intros o Ho. simpl in Ho.
    repeat (apply elem_of_cons in Ho as [->|Ho]; [by eexists|]).
    by apply elem_of_nil in Ho.
  - exact Hv.
Defined.

Lemma transform_failure_abandons_batch_witness :
  let s_i := (process_objects tmpnam env [cup] (clear_visuals start)).2 in
  let s' := processMessage tmpnam env
              {| objects := [cup] ++ cup_lost :: [can] |} start in
  s' = (process_object tmpnam env cup_lost s_i).2 /\
  length (visuals_ s') = 2.
Proof.
  destruct (transform_failure_abandons_batch tmpnam env [cup] cup_lost [can]
              start (process_objects tmpnam env [cup] (clear_visuals start)).2)
    as (Hs & _ & _ & Hlen & _); [vm_compute; reflexivity | reflexivity |].
  split; [exact Hs | exact Hlen].
Defined.

Lemma visuals_are_the_live_objects_witness :
  let s := processMessage tmpnam env {| objects := [cup; can; bent; cup] |}
             (processMessage tmpnam env {| objects := [can; ghost] |} start) in
  NoDup (visuals_ s) /\
  forall id, id ∈ visuals_ s <-> is_Some (visual_heap s !! id).
Proof.
  intros s.
  apply (visuals_are_the_live_objects (ObjectDb:=string) tmpnam ∅ s).
  eapply later_trans; apply processMessage_later.
Defined.

Lemma registry_matches_cache_witness :
  let s := processMessage tmpnam env {| objects := [cup; can] |} start in
  mesh_resources_ s !! "storecan" = Some ("file://" +:+ "/tmp/file0.stl") /\
  is_Some (fs s !! "/tmp/file0.stl") /\
  exists n, n < tmpnam_calls s /\ "/tmp/file0.stl" = tmpnam n +:+ ".stl".
Proof.
  intros s.
  apply (registry_matches_cache (ObjectDb:=string) tmpnam ∅ s "storecan"
           "/tmp/file0.stl");
    [apply processMessage_later | reflexivity].
Defined.

Lemma one_entry_per_temporary_file_witness :
  let s := processMessage tmpnam env {| objects := [cup; can; can] |} start in
  size (mesh_files_ s) = tmpnam_calls s /\
  length (drop (length (trace s)) (trace (OrkObjectDisplay_delete s)))
    = tmpnam_calls s.
Proof.
  intros s.
  apply (one_entry_per_temporary_file (ObjectDb:=string) tmpnam ∅ s).
  apply processMessage_later.
Defined.

Lemma one_backend_query_per_object_type_witness :
  exists e, is_backend_call e = true /\
    filter is_backend_call
      (trace (processMessage tmpnam env
                {| objects := cup :: [cup_lost; cup] |} start)) =
    filter is_backend_call (trace start) ++ [e; EvObjectInfo (key (type cup))].
Proof.
  apply (one_backend_query_per_object_type tmpnam env cup [cup_lost; cup] start).
  - reflexivity.
  - discriminate.
  - intros o Ho.
    repeat (apply elem_of_cons in Ho as [->|Ho]; [reflexivity|]).
    by apply elem_of_nil in Ho.
Defined.

Lemma failed_resolution_retried_each_time_witness :
  exists e, is_backend_call e = true /\
    filter is_backend_call
      (trace (processMessage tmpnam env
                {| objects := [missing; missing] |} start)) =
    filter is_backend_call (trace start) ++
      mjoin (replicate (length [missing; missing])
               [e; EvObjectInfo (key (type missing))]).
Proof.
  apply (failed_resolution_retried_each_time tmpnam env missing
           [missing; missing] start).
  - reflexivity.
  - left. reflexivity.
  - intros o Ho.
    repeat (apply elem_of_cons in Ho as [->|Ho];
            [split; [reflexivity | by eexists]|]).
    by apply elem_of_nil in Ho.
Defined.
